(** * art/utils.py: projection onto an L_p ball and sampling inside it

    A shallow embedding of [projection] and [random_sphere] from
    [art/utils.py].

    Arithmetic is idealised: a finite array entry is a real number and the
    operations on finite values are the exact ones (no rounding, no
    overflow).  What IEEE arithmetic adds to the reals and what the code
    relies on is kept: division by zero yields an infinity or a NaN, the
    infinities absorb, and NaN propagates.  Signed zeros are not
    distinguished (every zero divisor of the code is a norm or a square
    root, that is, [+0.0]).

    An [ndarray] of shape [(m, d1, ..., dk)] is the list of its [m] rows,
    each row the list of its entries in storage order; this is the view
    [v.reshape((m, prod(d1..dk)))] that the code itself takes.

    [random_sphere] reads numpy's global generator.  Here it takes the
    realization of its draws as an argument ([draws]), so that a property
    of every run is a property of every realization.  What a property
    needs of [scipy.special.gammainc] is a hypothesis on a parameter. *)

From Stdlib Require Import Reals Lra Psatz List ZArith Arith Lia.
From Stdlib Require Import Sorting.Sorted Sorting.Permutation.
From Stdlib Require Ascii String.
Import ListNotations.

Local Open Scope R_scope.

(** ** Floating-point values *)

Inductive float : Type :=
| Fin (x : R)
| PInf
| NInf
| NaN.

(** The three-way sign test every special case below goes through. *)
Definition Rsign_dec (x : R) : {x < 0} + {x = 0} + {0 < x} :=
  total_order_T x 0.

Module Float.

Definition neg (a : float) : float :=
  match a with
  | Fin x => Fin (- x)
  | PInf => NInf
  | NInf => PInf
  | NaN => NaN
  end.

(** The infinity with the sign of [x]; NaN at zero ([0 * inf], [0 / 0]). *)
Definition signed_inf (x : R) : float :=
  match Rsign_dec x with
  | inleft (left _) => NInf
  | inleft (right _) => NaN
  | inright _ => PInf
  end.

Definition mul (a b : float) : float :=
  match a, b with
  | NaN, _ | _, NaN => NaN
  | Fin x, Fin y => Fin (x * y)
  | Fin x, PInf | PInf, Fin x => signed_inf x
  | Fin x, NInf | NInf, Fin x => neg (signed_inf x)
  | PInf, PInf | NInf, NInf => PInf
  | PInf, NInf | NInf, PInf => NInf
  end.

Definition div (a b : float) : float :=
  match a, b with
  | NaN, _ | _, NaN => NaN
  | Fin x, Fin y =>
      if Req_dec_T y 0 then signed_inf x else Fin (x / y)
  | Fin _, PInf | Fin _, NInf => Fin 0
  | PInf, Fin y => if Rlt_dec y 0 then NInf else PInf
  | NInf, Fin y => if Rlt_dec y 0 then PInf else NInf
  | _, _ => NaN
  end.

Definition is_finite (a : float) : Prop :=
  match a with Fin _ => True | _ => False end.

End Float.

(** ** The numpy and Python primitives the two functions call *)

Inductive exn : Type :=
| NotImplementedError
| ZeroDivisionError
| ValueError.

Inductive result (A : Type) : Type :=
| Ok (a : A)
| Raise (e : exn).

Arguments Ok {A} a.
Arguments Raise {A} e.

(** The norm argument [p] ([norm] in [random_sphere]): documented as an
    [int], or [np.inf]. *)
Inductive norm_arg : Type :=
| PyInt (z : Z)
| PyInf.

Module Np.

(** [np.minimum] and [np.maximum]: NaN propagates. *)
Definition minimum (a b : float) : float :=
  match a, b with
  | NaN, _ | _, NaN => NaN
  | NInf, _ | _, NInf => NInf
  | PInf, c | c, PInf => c
  | Fin x, Fin y => Fin (Rmin x y)
  end.

Definition maximum (a b : float) : float :=
  match a, b with
  | NaN, _ | _, NaN => NaN
  | PInf, _ | _, PInf => PInf
  | NInf, c | c, NInf => c
  | Fin x, Fin y => Fin (Rmax x y)
  end.

(** [np.clip(a, a_min, a_max)], which numpy (1.17 and later) documents as
    [np.minimum(a_max, np.maximum(a, a_min))]: no check that
    [a_min <= a_max] is made, and where [a_min > a_max] the result is
    [a_max]. *)
Definition clip (a a_min a_max : float) : float :=
  minimum a_max (maximum a a_min).

(** [np.sign] on a finite entry. *)
Definition sign (x : R) : R :=
  match Rsign_dec x with
  | inleft (left _) => -1
  | inleft (right _) => 0
  | inright _ => 1
  end.

(** [np.linalg.norm(x, axis=1, ord=1)] on one row: the sum of the
    absolute values. *)
Definition norm_l1 (row : list R) : R :=
  fold_right (fun x acc => Rabs x + acc) 0 row.

(** [np.linalg.norm(x, axis=1)] on one row: the Euclidean norm. *)
Definition sum_sq (row : list R) : R :=
  fold_right (fun x acc => x * x + acc) 0 row.

Definition norm_l2 (row : list R) : R := sqrt (sum_sq row).

(** The maximum absolute entry (the L-infinity norm; the code never
    computes it, the properties of the L-infinity branches are stated
    with it). *)
Definition norm_linf (row : list R) : R :=
  fold_right (fun x acc => Rmax (Rabs x) acc) 0 row.

(** Elementwise binary operation on two arrays of one shape. *)
Fixpoint map2 {A B C : Type} (f : A -> B -> C) (l : list A) (l' : list B)
  : list C :=
  match l, l' with
  | a :: t, b :: t' => f a b :: map2 f t t'
  | _, _ => []
  end.

(** [np.sort] of a one-dimensional array (ascending). *)
Fixpoint insert (x : R) (l : list R) : list R :=
  match l with
  | [] => [x]
  | y :: t => if Rle_dec x y then x :: l else y :: insert x t
  end.

Definition sort (l : list R) : list R := fold_right insert [] l.

(** The assignments [a[-1] = b] and [a[1:-1] = xs] on a one-dimensional
    array (row [i] of [A] in [random_sphere]); the second one is given as
    many values as the slice has places. *)
Definition set_last (a : list R) (b : R) : list R :=
match a with
| [] => []
| _ :: _ => removelast a ++ [b]
end.

Definition set_inner (a xs : list R) : list R :=
match a with
| first :: _ :: _ => first :: xs ++ [last a 0]
| _ => a
end.

(** [np.random.uniform(low, high)] from the unit variate [x] in [[0, 1)]
    that the generator drew: [low + (high - low) * x]. *)
Definition uniform (low high x : R) : R := low + (high - low) * x.

(** [x ** y] for a base [x >= 0]; a negative base with the fractional
    exponents used here is NaN. *)
Definition power (x y : R) : float :=
  match Rsign_dec x with
  | inleft (left _) => NaN
  | inleft (right _) =>
      match Rsign_dec y with
      | inleft (left _) => PInf
      | inleft (right _) => Fin 1
      | inright _ => Fin 0
      end
  | inright _ => Fin (Rpower x y)
  end.

(** An array of shape [(k,)], respectively [(m, n)], from its entries. *)
Definition vector {A : Type} (k : nat) (f : nat -> A) : list A :=
  map f (seq 0 k).

Definition matrix {A : Type} (m n : nat) (f : nat -> nat -> A)
  : list (list A) :=
  vector m (fun i => vector n (f i)).

End Np.

(** ** [projection] *)

(** [tol = 10e-8]. *)
Definition tol : R := 10 / 10 ^ 8.

(** [norm = np.linalg.norm(v.reshape(reshape_dim), axis=1, ord=...)], or the
    [NotImplementedError] of the last [else]. *)
Definition row_norms (v : list (list R)) (p : norm_arg) : result (list R) :=
  match p with
  | PyInt 1 => Ok (map Np.norm_l1 v)
  | PyInt 2 => Ok (map Np.norm_l2 v)
  | _ => Raise NotImplementedError
  end.

(** The divisor [np.clip(norm, tol, norm)] of one row. *)
Definition clipped_norm (nm : R) : float :=
  Np.clip (Fin nm) (Fin tol) (Fin nm).

(** [norm = eps / np.clip(norm, tol, norm)]. *)
Definition ratio (eps nm : R) : float :=
  Float.div (Fin eps) (clipped_norm nm).

(** [norm = np.clip(norm, norm, 1.0)]: the factor the row is multiplied
    by. *)
Definition scale (eps nm : R) : float :=
  Np.clip (ratio eps nm) (ratio eps nm) (Fin 1).

(** [v * norm.reshape(expand_dim)]: row [i] times its own factor. *)
Definition scale_rows (v : list (list R)) (factors : list float)
  : list (list float) :=
  Np.map2 (fun row s => map (fun x => Float.mul (Fin x) s) row) v factors.

Definition projection (v : list (list R)) (eps : R) (p : norm_arg)
  : result (list (list float)) :=
  match p with
  | PyInf =>
      Ok (map (map (fun x => Fin (Np.sign x * Rmin (Rabs x) eps))) v)
  | _ =>
      match row_norms v p with
      | Raise e => Raise e
      | Ok norm => Ok (scale_rows v (map (scale eps) norm))
      end
  end.

(** The [p]-norm of a row, for the three supported values of [p]. *)
Definition lp_norm (p : norm_arg) (row : list R) : R :=
  match p with
  | PyInt 1 => Np.norm_l1 row
  | PyInt 2 => Np.norm_l2 row
  | PyInf => Np.norm_linf row
  | _ => 0
  end.

Definition supported (p : norm_arg) : Prop :=
  p = PyInt 1 \/ p = PyInt 2 \/ p = PyInf.

(** A batch of finite entries as an array of floats. *)
Definition finite_batch (v : list (list R)) : list (list float) :=
  map (map Fin) v.

(** ** [random_sphere] *)

(** One realization of the random draws.  [np.random.uniform] returns
    [low + (high - low) * x] for a unit variate [x] of the generator, so the
    uniform draws are recorded as their unit variates; [np.random.choice]
    picks, for every entry of the requested shape, an index into the list it
    is given; [np.random.randn] returns standard normal values.  Each field
    is indexed by the position of the entry in the array the call
    returns. *)
Record draws : Type := {
  unit_radius : nat -> R;          (* np.random.uniform(0, r**2, m) *)
  unit_cut : nat -> nat -> R;      (* np.random.uniform(0, A[i, -1], n-1), row i *)
  sign_index : nat -> nat -> bool; (* np.random.choice([-1, 1], (m, n)) *)
  gauss : nat -> nat -> R;         (* np.random.randn(m, n) *)
  unit_cube : nat -> nat -> R      (* np.random.uniform(-r, r, (m, n)) *)
}.

(** The generator's unit variates lie in [[0, 1)]. *)
Definition unit_variate (x : R) : Prop := 0 <= x < 1.

Definition valid_draws (w : draws) : Prop :=
  (forall i, unit_variate (unit_radius w i)) /\
  (forall i j, unit_variate (unit_cut w i j)) /\
  (forall i j, unit_variate (unit_cube w i j)).

(** [[-1, 1][k]] for the index [k] that [np.random.choice] picked. *)
Definition choice_sign (k : bool) : R := if k then 1 else -1.

Section RandomSphere.

(** [scipy.special.gammainc], the regularized lower incomplete gamma
    function. *)
Variable gammainc : R -> R -> R.

Variables (m n : nat) (r : R) (w : draws).

(** *** [norm == 1] *)

(** [A[i, -1]], the entry [np.sqrt(np.random.uniform(0, r**2, m))[i]]. *)
Definition endpoint (i : nat) : R :=
  sqrt (Np.uniform 0 (r * r) (unit_radius w i)).

(** [np.sort(np.random.uniform(0, A[i, -1], n-1))]. *)
Definition cut_points (i : nat) : list R :=
  Np.sort (Np.vector (n - 1)
             (fun j => Np.uniform 0 (endpoint i) (unit_cut w i j))).

(** Row [i] of [A] after the loop: [np.zeros(n+1)] with the endpoint
    written to its last place and the sorted cut points to the places in
    between. *)
Definition cuts_row (i : nat) : list R :=
  Np.set_inner (Np.set_last (repeat 0 (n + 1)) (endpoint i)) (cut_points i).

(** [A[:, 1:] - A[:, :-1]] on one row. *)
Definition gaps (a : list R) : list R :=
  Np.map2 Rminus (tl a) (removelast a).

Definition sign_row (i : nat) : list R :=
  Np.vector n (fun j => choice_sign (sign_index w i j)).

Definition l1_row (i : nat) : list R :=
  Np.map2 Rmult (gaps (cuts_row i)) (sign_row i).

(** For [n = 0] the slice [A[i, 1:-1]] is asked [n - 1 = -1] draws, which
    [np.random.uniform] refuses as soon as the loop runs once. *)
Definition sphere_l1 : result (list (list float)) :=
  match n, m with
  | O, O => Ok []
  | O, S _ => Raise ValueError
  | S _, _ => Ok (Np.vector m (fun i => map Fin (l1_row i)))
  end.

(** *** [norm == 2] *)

Definition gauss_row (i : nat) : list R := Np.vector n (gauss w i).

(** [s2 = np.sum(a**2, axis=1)]. *)
Definition s2 (i : nat) : R := Np.sum_sq (gauss_row i).

(** [base = gammainc(n/2.0, s2/2.0)**(1/n) * r / np.sqrt(s2)]. *)
Definition base (i : nat) : float :=
  Float.div
    (Float.mul (Np.power (gammainc (INR n / 2) (s2 i / 2)) (1 / INR n))
               (Fin r))
    (Fin (sqrt (s2 i))).

(** [1/n] raises for [n = 0]. *)
Definition sphere_l2 : result (list (list float)) :=
  match n with
  | O => Raise ZeroDivisionError
  | S _ =>
      Ok (Np.vector m
            (fun i => map (fun x => Float.mul (Fin x) (base i))
                        (gauss_row i)))
  end.

(** *** [norm == np.inf] *)

Definition sphere_linf : list (list float) :=
  Np.matrix m n (fun i j => Fin (Np.uniform (- r) r (unit_cube w i j))).

Definition random_sphere (norm : norm_arg) : result (list (list float)) :=
  match norm with
  | PyInt 1 => sphere_l1
  | PyInt 2 => sphere_l2
  | PyInf => Ok sphere_linf
  | _ => Raise NotImplementedError
  end.

End RandomSphere.

(** What is assumed of [scipy.special.gammainc]: on its domain ([a > 0],
    [x >= 0]) a regularized integral, that is, a value in [[0, 1]]. *)
Definition regularized (gammainc : R -> R -> R) : Prop :=
  forall a x, 0 < a -> 0 <= x -> 0 <= gammainc a x <= 1.

(** The regularized lower incomplete gamma function at [a = 1], where the
    integral is elementary: [P(1, x) = 1 - exp(-x)].  For [n = 2] the code
    calls [gammainc] at [a = n/2.0 = 1] only. *)
Definition gammainc_one (a x : R) : R := 1 - exp (- x).

(** A realization with every unit variate [1/2], normal draws [1.0], and
    signs alternating along the diagonals. *)
Definition half_draws : draws :=
  {| unit_radius := fun _ => 1 / 2;
     unit_cut := fun _ _ => 1 / 2;
     sign_index := fun i j => Nat.even (i + j);
     gauss := fun _ _ => 1;
     unit_cube := fun _ _ => 1 / 2 |}.

(** The realization in which every draw is zero: every uniform draw sits on
    the lower end of its interval, and every normal draw is [0.0]. *)
Definition zero_draws : draws :=
  {| unit_radius := fun _ => 0;
     unit_cut := fun _ _ => 0;
     sign_index := fun _ _ => false;
     gauss := fun _ _ => 0;
     unit_cube := fun _ _ => 0 |}.

(** ** The factor of a row, as a real number *)

(** What [scale] evaluates to for a positive [eps] (lemma
    [scale_factor]). *)
Definition factor (eps nm : R) : R :=
  if Req_dec_T nm 0 then 1 else Rmin 1 (eps / nm).

Definition project_row (eps : R) (p : norm_arg) (row : list R) : list R :=
  match p with
  | PyInf => map (fun x => Np.sign x * Rmin (Rabs x) eps) row
  | _ => map (fun x => x * factor eps (lp_norm p row)) row
  end.

(** ** The label helpers

    [to_categorical], [get_label_conf], [get_labels_np_array],
    [random_targets] and [preprocess].  Labels are integers; the entries of
    a confidence matrix are finite floats, that is, reals as above.  A
    two-dimensional array is the list of its rows; an array without rows
    stands for one of shape [(0, k)] with [k >= 1] (numpy's reductions over
    an axis without entries raise, see [amax]). *)

(** The numpy exceptions the label helpers can end in: [IndexError] (an
    index out of bounds) and [ValueError] (a reduction over no entries, a
    negative dimension, a choice from an empty list). *)
Inductive py_error : Type :=
| PyIndexError
| PyValueError.

Inductive answer (A : Type) : Type :=
| Returns (a : A)
| Raises (e : py_error).

Arguments Returns {A} a.
Arguments Raises {A} e.

(** An operation applied along the first axis: the first entry that raises
    ends the call. *)
Fixpoint all_returns {A B : Type} (f : A -> answer B) (l : list A)
  : answer (list B) :=
  match l with
  | [] => Returns []
  | a :: t =>
      match f a with
      | Raises e => Raises e
      | Returns b =>
          match all_returns f t with
          | Raises e => Raises e
          | Returns bs => Returns (b :: bs)
          end
      end
  end.

(** [np.amax] over one row; numpy refuses a row without entries. *)
Definition amax (row : list R) : answer R :=
  match row with
  | [] => Raises PyValueError
  | x :: t => Returns (fold_left Rmax t x)
  end.

(** [np.argmax] over one row: the index of the first maximal entry.
    [argmax_from best besti i l] scans [l], whose head has index [i], with
    the largest entry so far [best], found at [besti]. *)
Fixpoint argmax_from (best : R) (besti i : nat) (l : list R) : nat :=
  match l with
  | [] => besti
  | x :: t =>
      if Rlt_dec best x then argmax_from x i (S i) t
      else argmax_from best besti (S i) t
  end.

Definition argmax (row : list R) : answer nat :=
  match row with
  | [] => Raises PyValueError
  | x :: t => Returns (argmax_from x 0 1 t)
  end.

(** [row[j] = x], for [j] within bounds. *)
Fixpoint set_entry (row : list R) (j : nat) (x : R) : list R :=
  match row, j with
  | [], _ => []
  | _ :: t, O => x :: t
  | y :: t, S j' => y :: set_entry t j' x
  end.

(** *** [to_categorical] *)

(** [np.max(labels) + 1]. *)
Definition infer_nb_classes (labels : list Z) : answer Z :=
  match labels with
  | [] => Raises PyValueError
  | l :: t => Returns (fold_left Z.max t l + 1)%Z
  end.

(** [if not nb_classes: nb_classes = np.max(labels) + 1]: both [None] and
    [0] are falsy. *)
Definition class_count (labels : list Z) (nb_classes : option Z) : answer Z :=
  match nb_classes with
  | None | Some 0%Z => infer_nb_classes labels
  | Some k => Returns k
  end.

(** The column an index [j] selects along an axis of [k] entries: numpy
    counts a negative index from the end, and raises out of bounds. *)
Definition column (k j : Z) : option nat :=
  if andb (0 <=? j)%Z (j <? k)%Z then Some (Z.to_nat j)
  else if andb (- k <=? j)%Z (j <? 0)%Z then Some (Z.to_nat (k + j))
  else None.

(** Row [i] of [categorical] after
    [categorical[np.arange(n), np.squeeze(labels)] = 1]. *)
Definition categorical_row (k l : Z) : answer (list R) :=
  match column k l with
  | Some j => Returns (set_entry (repeat 0 (Z.to_nat k)) j 1)
  | None => Raises PyIndexError
  end.

(** [labels] holds the values of [np.array(labels, dtype=np.int32)] (of
    shape [(n,)] or [(n, 1)]); [np.zeros] refuses a negative dimension. *)
Definition to_categorical (labels : list Z) (nb_classes : option Z)
  : answer (list (list R)) :=
  match class_count labels nb_classes with
  | Raises e => Raises e
  | Returns k =>
      if (k <? 0)%Z then Raises PyValueError
      else all_returns (categorical_row k) labels
  end.

(** *** [get_label_conf] and [get_labels_np_array] *)

(** The assertion [len(y_vec.shape) == 2] holds of every list of rows. *)
Definition get_label_conf (y_vec : list (list R))
  : answer (list R * list nat) :=
  match all_returns amax y_vec with
  | Raises e => Raises e
  | Returns confs =>
      match all_returns argmax y_vec with
      | Raises e => Raises e
      | Returns labels => Returns (confs, labels)
      end
  end.

(** [(preds == preds_max).astype(float)] on one row. *)
Definition max_indicator (row : list R) : answer (list R) :=
  match amax row with
  | Raises e => Raises e
  | Returns mx => Returns (map (fun x => if Req_dec_T x mx then 1 else 0) row)
  end.

Definition get_labels_np_array (preds : list (list R))
  : answer (list (list R)) :=
  all_returns max_indicator preds.

(** *** [random_targets] *)

(** The argument [labels]: an array of labels, or (two dimensions) a matrix
    of confidences. *)
Inductive label_array : Type :=
| Labels (l : list Z)
| Confidences (y : list (list R)).

(** [if len(labels.shape) > 1: labels = np.argmax(labels, axis=1)]. *)
Definition class_labels (labels : label_array) : answer (list Z) :=
  match labels with
  | Labels l => Returns l
  | Confidences y =>
      match all_returns argmax y with
      | Raises e => Raises e
      | Returns l => Returns (map Z.of_nat l)
      end
  end.

(** [list(range(k))]. *)
Definition py_range (k : Z) : list Z :=
  map Z.of_nat (seq 0 (Z.to_nat k)).

(** [l.remove(x)] for an [x] that occurs in [l]: its first occurrence is
    taken out. *)
Fixpoint remove_first (x : Z) (l : list Z) : list Z :=
  match l with
  | [] => []
  | y :: t => if (y =? x)%Z then t else y :: remove_first x t
  end.

(** [np.random.choice(a)] for a list [a], from the index the generator
    drew (below [len(a)]); an empty list is refused. *)
Definition choice (a : list Z) (idx : nat) : answer Z :=
  match a with
  | [] => Raises PyValueError
  | _ :: _ => Returns (nth idx a 0%Z)
  end.

(** The loop over [class_ind]: [pick c] is the index drawn in the
    iteration for class [c]; [result[in_cl] = ...] overwrites the entries
    whose label is [c]. *)
Fixpoint assign_targets (classes : list Z) (k : Z) (pick : nat -> nat)
         (labels result : list Z) : answer (list Z) :=
  match classes with
  | [] => Returns result
  | c :: rest =>
      match choice (remove_first c (py_range k)) (pick (Z.to_nat c)) with
      | Raises e => Raises e
      | Returns t =>
          assign_targets rest k pick labels
            (Np.map2 (fun l r => if (l =? c)%Z then t else r) labels result)
      end
  end.

Definition random_targets (labels : label_array) (nb_classes : Z)
           (pick : nat -> nat) : answer (list (list R)) :=
  match class_labels labels with
  | Raises e => Raises e
  | Returns l =>
      match assign_targets (py_range nb_classes) nb_classes pick l
                           (repeat 0%Z (length l)) with
      | Raises e => Raises e
      | Returns result => to_categorical result (Some nb_classes)
      end
  end.

(** The draws [np.random.choice] can make for [nb_classes] classes: an
    index into the [nb_classes - 1] other classes. *)
Definition valid_picks (nb_classes : Z) (pick : nat -> nat) : Prop :=
  forall c, (pick c < Z.to_nat nb_classes - 1)%nat.

(** *** [preprocess] *)

(** [x.astype('float32') / max_value] on the rows of [x], and
    [to_categorical(y, nb_classes)]. *)
Definition preprocess (x : list (list R)) (y : list Z)
           (nb_classes : Z) (max_value : R)
  : answer (list (list float) * list (list R)) :=
  match to_categorical y (Some nb_classes) with
  | Raises e => Raises e
  | Returns y' =>
      Returns (map (map (fun v => Float.div (Fin v) (Fin max_value))) x, y')
  end.

(** The row of [k] zeros with a one written at column [j]. *)
Definition onehot (k j : nat) : list R := set_entry (repeat 0 k) j 1.

(** Labels that name one of [k] classes. *)
Definition in_classes (k : Z) (l : Z) : Prop := (0 <= l < k)%Z.

(** The class [np.random.choice] returns in the iteration for class [c],
    and the target the loop leaves for a label [l]: the pick of its class,
    or what the entry held ([r], initially [0]) when [l] is no class. *)
Definition class_target (k : Z) (pick : nat -> nat) (c : Z) : Z :=
  nth (pick (Z.to_nat c)) (remove_first c (py_range k)) 0%Z.

Definition target_of_or (k : Z) (pick : nat -> nat) (classes : list Z)
           (l r : Z) : Z :=
  if in_dec Z.eq_dec l classes then class_target k pick l else r.

Definition target_of (k : Z) (pick : nat -> nat) (classes : list Z) (l : Z)
  : Z :=
  target_of_or k pick classes l 0%Z.

(** ** [load_dataset] *)

Module Loader.

Import Ascii String.
Local Open Scope string_scope.

(** [sub in s] for two strings: [sub] occurs in [s]. *)
Fixpoint contains (sub s : string) : bool :=
  if prefix sub s then true
  else match s with
       | EmptyString => false
       | String _ t => contains sub t
       end.

Section LoadDataset.

(** What a loader returns, and the outcome of each of the four loaders
    (they read the dataset from disk or from the network). *)
Variable dataset : Type.
Variables load_mnist load_cifar10 load_imagenet load_stl : result dataset.

Definition load_dataset (name : string) : result dataset :=
  if contains "mnist" name then load_mnist
  else if contains "cifar10" name then load_cifar10
  else if contains "imagenet" name then load_imagenet
  else if contains "stl10" name then load_stl
  else Raise NotImplementedError.

End LoadDataset.

End Loader.

(** * Properties *)

Ltac minmax :=
  unfold Rmin, Rmax in *;
  repeat match goal with
         | |- context [Rle_dec ?a ?b] => destruct (Rle_dec a b)
         | H : context [Rle_dec ?a ?b] |- _ => destruct (Rle_dec a b)
         end; try lra.

Ltac sign_cases x :=
  destruct (Rsign_dec x) as [[?|?]|?]; try lra.

(** ** Norms *)

Lemma norm_l1_nonneg row : 0 <= Np.norm_l1 row.
Proof.
  induction row as [|x row IH]; simpl; [lra|].
  pose proof (Rabs_pos x). lra.
Qed.

Lemma sum_sq_nonneg row : 0 <= Np.sum_sq row.
Proof.
  induction row as [|x row IH]; simpl; [lra|]. nra.
Qed.

Lemma norm_l2_nonneg row : 0 <= Np.norm_l2 row.
Proof. apply sqrt_pos. Qed.

Lemma norm_linf_nonneg row : 0 <= Np.norm_linf row.
Proof.
  induction row as [|x row IH]; simpl; [lra|].
  pose proof (Rabs_pos x). minmax.
Qed.

Lemma norm_l1_scale c row :
  Np.norm_l1 (map (fun x => x * c) row) = Rabs c * Np.norm_l1 row.
Proof.
  induction row as [|x row IH]; simpl; [lra|].
  rewrite IH, Rabs_mult. lra.
Qed.

Lemma sum_sq_scale c row :
  Np.sum_sq (map (fun x => x * c) row) = c * c * Np.sum_sq row.
Proof.
  induction row as [|x row IH]; simpl; [lra|].
  rewrite IH. lra.
Qed.

Lemma norm_l2_scale c row :
  Np.norm_l2 (map (fun x => x * c) row) = Rabs c * Np.norm_l2 row.
Proof.
  unfold Np.norm_l2. rewrite sum_sq_scale.
  rewrite sqrt_mult_alt by nra.
  fold (Rsqr c). now rewrite sqrt_Rsqr_abs.
Qed.

Lemma lp_norm_nonneg p row : 0 <= lp_norm p row.
Proof.
  unfold lp_norm.
  repeat match goal with
         | |- context [match ?q with _ => _ end] => destruct q
         end;
    auto using norm_l1_nonneg, norm_l2_nonneg, norm_linf_nonneg, Rle_refl.
Qed.

(** ** The factor of a row *)

Lemma tol_pos : 0 < tol.
Proof. unfold tol. lra. Qed.

(** The first clip has its own argument as upper bound, so it returns the
    norm as it is. *)
Lemma clipped_norm_id nm : clipped_norm nm = Fin nm.
Proof.
  unfold clipped_norm, Np.clip. simpl. f_equal. minmax.
Qed.

Lemma ratio_zero eps : 0 < eps -> ratio eps 0 = PInf.
Proof.
  intros Heps. unfold ratio. rewrite clipped_norm_id. simpl.
  destruct (Req_dec_T 0 0) as [_|H]; [|lra].
  unfold Float.signed_inf. sign_cases eps. reflexivity.
Qed.

Lemma ratio_nonzero eps nm : nm <> 0 -> ratio eps nm = Fin (eps / nm).
Proof.
  intros Hnm. unfold ratio. rewrite clipped_norm_id. simpl.
  destruct (Req_dec_T nm 0); [contradiction|reflexivity].
Qed.

Lemma scale_factor eps nm : 0 < eps -> scale eps nm = Fin (factor eps nm).
Proof.
  intros Heps. unfold scale, factor.
  destruct (Req_dec_T nm 0) as [-> | Hnm].
  - rewrite ratio_zero by assumption. reflexivity.
  - rewrite ratio_nonzero by assumption. unfold Np.clip. simpl.
    f_equal. minmax.
Qed.

Lemma factor_range eps nm :
  0 < eps -> 0 <= nm -> 0 < factor eps nm <= 1.
Proof.
  intros Heps Hnm. unfold factor.
  destruct (Req_dec_T nm 0) as [|H0]; [lra|].
  assert (0 < eps / nm) by (apply Rdiv_lt_0_compat; lra).
  minmax.
Qed.

Lemma factor_inside eps nm :
  0 < eps -> 0 <= nm <= eps -> factor eps nm = 1.
Proof.
  intros Heps [H0 Hle]. unfold factor.
  destruct (Req_dec_T nm 0) as [|Hnz]; [reflexivity|].
  assert (1 <= eps / nm).
  { apply Rmult_le_reg_r with nm; [lra|].
    unfold Rdiv. rewrite Rmult_assoc, Rinv_l by assumption. lra. }
  minmax.
Qed.

Lemma factor_outside eps nm :
  0 < eps -> eps < nm -> factor eps nm = eps / nm.
Proof.
  intros Heps Hlt. unfold factor.
  destruct (Req_dec_T nm 0) as [|Hnz]; [lra|].
  assert (eps / nm < 1).
  { apply Rmult_lt_reg_r with nm; [lra|].
    unfold Rdiv. rewrite Rmult_assoc, Rinv_l by assumption. lra. }
  minmax.
Qed.

Lemma factor_norm eps nm :
  0 < eps -> 0 <= nm -> factor eps nm * nm <= eps.
Proof.
  intros Heps Hnm.
  destruct (Rle_dec nm eps) as [Hle|Hgt].
  - rewrite factor_inside by lra. lra.
  - rewrite factor_outside by lra. apply Req_le. field. lra.
Qed.

(** ** [projection], row by row *)

Lemma map2_map_r {A B C : Type} (f : A -> B -> C) (g : A -> B) (l : list A) :
  Np.map2 f l (map g l) = map (fun a => f a (g a)) l.
Proof.
  induction l as [|a l IH]; simpl; [reflexivity|]. now rewrite IH.
Qed.

Lemma scale_rows_map eps (nrm : list R -> R) v :
  0 < eps ->
  scale_rows v (map (scale eps) (map nrm v)) =
  finite_batch (map (fun row => map (fun x => x * factor eps (nrm row)) row) v).
Proof.
  intros Heps. unfold scale_rows, finite_batch.
  rewrite map_map, map2_map_r, map_map.
  apply map_ext. intros row.
  rewrite scale_factor by assumption.
  rewrite map_map. reflexivity.
Qed.

Lemma projection_rows v eps p :
  0 < eps -> supported p ->
  projection v eps p = Ok (finite_batch (map (project_row eps p) v)).
Proof.
  intros Heps [-> | [-> | ->]]; simpl.
  - now rewrite scale_rows_map.
  - now rewrite scale_rows_map.
  - f_equal. unfold finite_batch. rewrite map_map.
    apply map_ext. intros row. simpl. now rewrite map_map.
Qed.

Lemma Rabs_minus_one : Rabs (-1) = 1.
Proof. unfold Rabs. destruct (Rcase_abs (-1)); lra. Qed.

Lemma clip_entry_abs x eps :
  0 < eps -> Rabs (Np.sign x * Rmin (Rabs x) eps) <= eps.
Proof.
  intros Heps. pose proof (Rabs_pos x) as Hx.
  rewrite Rabs_mult. unfold Np.sign.
  sign_cases x.
  - rewrite Rabs_minus_one, Rmult_1_l, Rabs_pos_eq; minmax.
  - rewrite Rabs_R0. lra.
  - rewrite Rabs_R1, Rmult_1_l, Rabs_pos_eq; minmax.
Qed.

Lemma clip_entry_inside x eps :
  Rabs x <= eps -> Np.sign x * Rmin (Rabs x) eps = x.
Proof.
  intros Hx. rewrite Rmin_left by assumption. unfold Np.sign.
  sign_cases x.
  - rewrite Rabs_left by assumption. lra.
  - rewrite Rabs_right by lra. lra.
Qed.

Lemma norm_linf_bound row b :
  0 <= b -> Forall (fun x => Rabs x <= b) row -> Np.norm_linf row <= b.
Proof.
  intros Hb. induction 1 as [|x row Hx _ IH]; simpl; [assumption|].
  apply Rmax_lub; assumption.
Qed.

Lemma norm_linf_entries row b :
  Np.norm_linf row <= b -> Forall (fun x => Rabs x <= b) row.
Proof.
  induction row as [|x row IH]; simpl; intros H; constructor.
  - pose proof (Rmax_l (Rabs x) (Np.norm_linf row)). lra.
  - apply IH. pose proof (Rmax_r (Rabs x) (Np.norm_linf row)). lra.
Qed.

Lemma map_id_on {A : Type} (f : A -> A) (l : list A) :
  Forall (fun a => f a = a) l -> map f l = l.
Proof.
  induction 1 as [|a l Ha _ IH]; simpl; [reflexivity|]. now rewrite Ha, IH.
Qed.

Lemma project_row_norm eps p row :
  0 < eps -> supported p -> lp_norm p (project_row eps p row) <= eps.
Proof.
  intros Heps [-> | [-> | ->]]; simpl.
  - pose proof (norm_l1_nonneg row) as Hn.
    pose proof (factor_range eps _ Heps Hn) as [Hf _].
    rewrite norm_l1_scale, Rabs_pos_eq by lra.
    now apply factor_norm.
  - pose proof (norm_l2_nonneg row) as Hn.
    pose proof (factor_range eps _ Heps Hn) as [Hf _].
    rewrite norm_l2_scale, Rabs_pos_eq by lra.
    now apply factor_norm.
  - apply norm_linf_bound; [lra|].
    apply Forall_map, Forall_forall. intros x _.
    now apply clip_entry_abs.
Qed.

Lemma project_row_inside eps p row :
  0 < eps -> supported p -> lp_norm p row <= eps ->
  project_row eps p row = row.
Proof.
  intros Heps Hp Hle.
  pose proof (lp_norm_nonneg p row) as Hn.
  destruct Hp as [-> | [-> | ->]]; simpl in *.
  - rewrite factor_inside by lra.
    apply map_id_on, Forall_forall. intros; lra.
  - rewrite factor_inside by lra.
    apply map_id_on, Forall_forall. intros; lra.
  - apply map_id_on.
    eapply Forall_impl; [|apply norm_linf_entries; exact Hle].
    intros x Hx. now apply clip_entry_inside.
Qed.

Lemma lp_norm_zeros p d : supported p -> lp_norm p (repeat 0 d) = 0.
Proof.
  intros [-> | [-> | ->]]; simpl.
  - induction d as [|d IH]; simpl; [reflexivity|].
    rewrite IH, Rabs_R0. lra.
  - unfold Np.norm_l2.
    replace (Np.sum_sq (repeat 0 d)) with 0; [apply sqrt_0|].
    induction d as [|d IH]; simpl; [reflexivity|]. rewrite <- IH. lra.
  - induction d as [|d IH]; simpl; [reflexivity|].
    rewrite IH, Rabs_R0. apply Rmax_left. lra.
Qed.

Lemma nth_error_finite_batch out i :
  nth_error (finite_batch out) i = option_map (map Fin) (nth_error out i).
Proof. unfold finite_batch. apply nth_error_map. Qed.

Lemma unsupported_cases p :
  ~ supported p ->
  match p with
  | PyInt 1 | PyInt 2 | PyInf => False
  | _ => True
  end.
Proof.
  unfold supported. intros H.
  repeat match goal with
         | |- context [match ?q with _ => _ end] => destruct q
         end; auto.
Qed.

(** ** The claims on [projection] *)

(** C1: for a positive radius and a supported norm, [projection] returns a
    batch of finite rows, one per input row, and every returned row has
    [p]-norm at most [eps] (in exact arithmetic, so within any positive
    tolerance as well). *)
Theorem projection_norm_bound v eps p :
  0 < eps -> supported p ->
  exists out,
    projection v eps p = Ok (finite_batch out) /\
    length out = length v /\
    Forall (fun row => lp_norm p row <= eps) out.
Proof.
  intros Heps Hp. exists (map (project_row eps p) v).
  split; [now apply projection_rows|].
  split; [apply length_map|].
  apply Forall_map, Forall_forall. intros row _.
  now apply project_row_norm.
Qed.

Lemma projection_norm_bound_witness :
  exists out,
    projection [[3; 4]; [0; 0]] 1 (PyInt 2) = Ok (finite_batch out) /\
    length out = length [[3; 4]; [0; 0]] /\
    Forall (fun row => lp_norm (PyInt 2) row <= 1) out.
Proof.
  apply projection_norm_bound; [lra | right; left; reflexivity].
Defined.

(** C2 (the code at an all-zero row): the first clip is given the norm
    itself as its upper bound, so the divisor stays [0], below [tol]; the
    quotient [eps / 0] is an infinity, which only the second clip turns into
    the factor [1.0]. *)
Theorem zero_row_divisor_not_floored :
  Np.norm_l2 [0; 0] = 0 /\
  clipped_norm 0 = Fin 0 /\
  0 < tol /\
  ratio 1 0 = PInf /\
  scale 1 0 = Fin 1 /\
  projection [[0; 0]] 1 (PyInt 2) = Ok [[Fin 0; Fin 0]].
Proof.
  assert (Hn : Np.norm_l2 [0; 0] = 0).
  { unfold Np.norm_l2. simpl.
    replace (0 * 0 + (0 * 0 + 0)) with 0 by lra. apply sqrt_0. }
  split; [exact Hn|].
  split; [apply clipped_norm_id|].
  split; [apply tol_pos|].
  split; [apply ratio_zero; lra|].
  assert (Hs : scale 1 0 = Fin 1).
  { rewrite scale_factor by lra. unfold factor.
    destruct (Req_dec_T 0 0); [reflexivity|lra]. }
  split; [exact Hs|].
  cbn [projection row_norms map scale_rows Np.map2].
  rewrite Hn, Hs. cbn [Float.mul]. repeat f_equal; lra.
Qed.

(** C4: a row whose [p]-norm is at most [eps] is returned as it is. *)
Theorem projection_identity_inside v eps p i row :
  0 < eps -> supported p ->
  nth_error v i = Some row ->
  lp_norm p row <= eps ->
  exists out,
    projection v eps p = Ok out /\
    nth_error out i = Some (map Fin row).
Proof.
  intros Heps Hp Hrow Hle.
  exists (finite_batch (map (project_row eps p) v)).
  split; [now apply projection_rows|].
  rewrite nth_error_finite_batch, nth_error_map, Hrow. simpl.
  now rewrite project_row_inside.
Qed.

Lemma projection_identity_inside_witness :
  exists out,
    projection [[3; 4]; [1; -1]] 2 (PyInt 1) = Ok out /\
    nth_error out 1 = Some (map Fin [1; -1]).
Proof.
  apply (projection_identity_inside [[3; 4]; [1; -1]] 2 (PyInt 1) 1 [1; -1]).
  - lra.
  - left; reflexivity.
  - reflexivity.
  - simpl. rewrite Rabs_R1, Rabs_minus_one. lra.
Defined.

(** C5: an all-zero batch is a fixed point for every positive radius and
    every supported norm; for [p = 1] and [p = 2] the quotient of a zero row
    is infinite and the second clip makes its factor [1.0]. *)
Theorem projection_zeros m d eps p :
  0 < eps -> supported p ->
  projection (repeat (repeat 0 d) m) eps p
    = Ok (repeat (repeat (Fin 0) d) m) /\
  (p <> PyInf ->
   ratio eps (lp_norm p (repeat 0 d)) = PInf /\
   scale eps (lp_norm p (repeat 0 d)) = Fin 1).
Proof.
  intros Heps Hp. split.
  - rewrite projection_rows by assumption. f_equal.
    unfold finite_batch. rewrite !map_repeat.
    rewrite project_row_inside; try assumption.
    + now rewrite map_repeat.
    + rewrite lp_norm_zeros by assumption. lra.
  - intros _. rewrite lp_norm_zeros by assumption.
    split; [now apply ratio_zero|].
    rewrite scale_factor by assumption. unfold factor.
    destruct (Req_dec_T 0 0); [reflexivity|lra].
Qed.

Lemma projection_zeros_witness :
  projection (repeat (repeat 0 3) 2) (1 / 2) (PyInt 2)
    = Ok (repeat (repeat (Fin 0) 3) 2) /\
  (PyInt 2 <> PyInf ->
   ratio (1 / 2) (lp_norm (PyInt 2) (repeat 0 3)) = PInf /\
   scale (1 / 2) (lp_norm (PyInt 2) (repeat 0 3)) = Fin 1).
Proof.
  apply projection_zeros; [lra | right; left; reflexivity].
Defined.



(** C7: any norm argument other than [1], [2] and [np.inf] makes both
    functions raise [NotImplementedError]; nothing is returned. *)
Theorem unsupported_norm_raises gammainc v eps m n r w p :
  ~ supported p ->
  projection v eps p = Raise NotImplementedError /\
  random_sphere gammainc m n r w p = Raise NotImplementedError.
Proof.
  intros H. apply unsupported_cases in H.
  unfold projection, random_sphere, row_norms.
  repeat match type of H with
         | context [match ?q with _ => _ end] => destruct q
         end; try contradiction; split; reflexivity.
Qed.

Lemma unsupported_norm_raises_witness :
  projection [[3; 4]] 1 (PyInt 3) = Raise NotImplementedError /\
  random_sphere gammainc_one 2 2 1 half_draws (PyInt 3)
    = Raise NotImplementedError.
Proof.
  apply unsupported_norm_raises.
  intros [H | [H | H]]; discriminate H.
Defined.

Lemma norm_l2_3_4 : Np.norm_l2 [3; 4] = 5.
Proof.
  unfold Np.norm_l2. simpl.
  replace (3 * 3 + (4 * 4 + 0)) with (Rsqr 5) by (unfold Rsqr; lra).
  apply sqrt_Rsqr. lra.
Qed.

(** C8: for [p = 1] and [p = 2] a row whose norm exceeds [eps] is returned
    multiplied by [eps / norm]; [[3, 4]] is halved at [eps = 2.5] and kept
    at [eps = 5]. *)
Theorem projection_scales_outside v eps p i row :
  0 < eps -> p = PyInt 1 \/ p = PyInt 2 ->
  nth_error v i = Some row ->
  eps < lp_norm p row ->
  (exists out,
     projection v eps p = Ok out /\
     nth_error out i
       = Some (map (fun x => Fin (x * (eps / lp_norm p row))) row)) /\
  projection [[3; 4]] 2.5 (PyInt 2) = Ok [[Fin 1.5; Fin 2]] /\
  projection [[3; 4]] 5 (PyInt 2) = Ok [[Fin 3; Fin 4]].
Proof.
  intros Heps Hp Hrow Hlt. split; [|split].
  - exists (finite_batch (map (project_row eps p) v)).
    assert (Hs : supported p) by (unfold supported; tauto).
    split; [now apply projection_rows|].
    rewrite nth_error_finite_batch, nth_error_map, Hrow. simpl. f_equal.
    destruct Hp as [-> | ->]; simpl in *;
      rewrite factor_outside by assumption; now rewrite map_map.
  - rewrite projection_rows by (try lra; right; left; reflexivity).
    simpl. rewrite norm_l2_3_4, factor_outside by lra.
    repeat f_equal; lra.
  - rewrite projection_rows by (try lra; right; left; reflexivity).
    simpl. rewrite norm_l2_3_4, factor_inside by lra.
    repeat f_equal; lra.
Qed.

Lemma projection_scales_outside_witness :
  (exists out,
     projection [[3; 4]] 2.5 (PyInt 2) = Ok out /\
     nth_error out 0
       = Some (map (fun x => Fin (x * (2.5 / lp_norm (PyInt 2) [3; 4])))
                 [3; 4])) /\
  projection [[3; 4]] 2.5 (PyInt 2) = Ok [[Fin 1.5; Fin 2]] /\
  projection [[3; 4]] 5 (PyInt 2) = Ok [[Fin 3; Fin 4]].
Proof.
  apply (projection_scales_outside [[3; 4]] 2.5 (PyInt 2) 0 [3; 4]).
  - lra.
  - right; reflexivity.
  - reflexivity.
  - simpl. rewrite norm_l2_3_4. lra.
Defined.

(** ** Further properties of [projection] *)

Lemma finite_batch_finite out :
  Forall (Forall Float.is_finite) (finite_batch out).
Proof.
  unfold finite_batch. apply Forall_map, Forall_forall. intros row _.
  apply Forall_map, Forall_forall. intros x _. exact I.
Qed.

(** For a batch of finite entries, a positive radius and a supported norm,
    the result holds no NaN and no infinity: the infinite quotient of a
    zero row does not reach the output. *)
Theorem projection_finite v eps p :
  0 < eps -> supported p ->
  exists out,
    projection v eps p = Ok out /\
    length out = length v /\
    Forall (Forall Float.is_finite) out.
Proof.
  intros Heps Hp. exists (finite_batch (map (project_row eps p) v)).
  split; [now apply projection_rows|].
  split; [unfold finite_batch; now rewrite !length_map|].
  apply finite_batch_finite.
Qed.

Lemma projection_finite_witness :
  exists out,
    projection [[0; 0]; [3; 4]] 1 (PyInt 1) = Ok out /\
    length out = length [[0; 0]; [3; 4]] /\
    Forall (Forall Float.is_finite) out.
Proof.
  apply projection_finite; [lra | left; reflexivity].
Defined.

(** The L-infinity scenario: [[3, -5]] clipped at [eps = 2] is
    [[2, -2]]. *)
Theorem projection_linf_scenario :
  projection [[3; -5]] 2 PyInf = Ok [[Fin 2; Fin (-2)]].
Proof.
  unfold projection. simpl. do 3 f_equal; [|f_equal]; f_equal.
  - unfold Np.sign. sign_cases 3.
    rewrite Rabs_pos_eq by lra. minmax.
  - unfold Np.sign. sign_cases (-5).
    rewrite Rabs_left by lra. minmax.
Qed.

(** The factor a row is multiplied by lies in [(0, 1]]. *)
Theorem scale_in_unit_interval eps nm :
  0 < eps -> 0 <= nm ->
  exists c, scale eps nm = Fin c /\ 0 < c <= 1.
Proof.
  intros Heps Hnm. exists (factor eps nm).
  split; [now apply scale_factor | now apply factor_range].
Qed.

Lemma scale_in_unit_interval_witness :
  exists c, scale 1 (Np.norm_l1 [3; -4]) = Fin c /\ 0 < c <= 1.
Proof.
  apply scale_in_unit_interval; [lra | apply norm_l1_nonneg].
Defined.

(** ** [np.sort] *)

Lemma insert_perm x l : Permutation (Np.insert x l) (x :: l).
Proof.
  induction l as [|y l IH]; simpl; [reflexivity|].
  destruct (Rle_dec x y); [reflexivity|].
  rewrite IH. apply perm_swap.
Qed.

Lemma sort_perm l : Permutation (Np.sort l) l.
Proof.
  induction l as [|x l IH]; simpl; [reflexivity|].
  rewrite insert_perm. now constructor.
Qed.

Lemma insert_hd x y l :
  y <= x -> HdRel Rle y l -> HdRel Rle y (Np.insert x l).
Proof.
  intros Hyx Hl. destruct l as [|z l]; simpl.
  - now constructor.
  - destruct (Rle_dec x z); constructor; [assumption|].
    now inversion Hl.
Qed.

Lemma insert_sorted x l : Sorted Rle l -> Sorted Rle (Np.insert x l).
Proof.
  induction 1 as [|y l Hs IH Hhd]; simpl.
  - repeat constructor.
  - destruct (Rle_dec x y) as [Hle|Hgt].
    + constructor; [now constructor|now constructor].
    + constructor; [assumption|]. apply insert_hd; [lra|assumption].
Qed.

Lemma sort_sorted l : Sorted Rle (Np.sort l).
Proof.
  induction l as [|x l IH]; simpl; [constructor|].
  now apply insert_sorted.
Qed.

Lemma sort_length l : length (Np.sort l) = length l.
Proof. apply Permutation_length, sort_perm. Qed.

Lemma sort_Forall (P : R -> Prop) l : Forall P l -> Forall P (Np.sort l).
Proof.
  intros H. eapply Permutation_Forall; [|exact H].
  symmetry. apply sort_perm.
Qed.

(** Appending an upper bound keeps a list sorted. *)
Lemma sorted_snoc l b :
  Sorted Rle l -> Forall (fun x => x <= b) l -> Sorted Rle (l ++ [b]).
Proof.
  induction 1 as [|y l Hs IH Hhd]; simpl; intros Hb.
  - repeat constructor.
  - inversion Hb as [|? ? Hy Hl]; subst.
    constructor; [now apply IH|].
    destruct l as [|z l]; simpl; constructor; [assumption|].
    now inversion Hhd.
Qed.

(** ** Gaps between consecutive cut points *)

Lemma gaps_cons a b t : gaps (a :: b :: t) = (b - a) :: gaps (b :: t).
Proof. reflexivity. Qed.

Lemma gaps_length a : length (gaps a) = (length a - 1)%nat.
Proof.
  destruct a as [|a t]; [reflexivity|].
  revert a. induction t as [|b t IH]; intros a; [reflexivity|].
  rewrite gaps_cons. simpl length. rewrite IH. simpl. lia.
Qed.

Lemma gaps_nonneg a : Sorted Rle a -> Forall (fun g => 0 <= g) (gaps a).
Proof.
  induction 1 as [|a t Hs IH Hhd]; [constructor|].
  destruct t as [|b t]; [constructor|].
  rewrite gaps_cons. constructor; [|exact IH].
  inversion Hhd; subst. lra.
Qed.

Lemma last_nonempty_default (b : R) t d d' :
  last (b :: t) d = last (b :: t) d'.
Proof.
  revert b. induction t as [|c t IH]; intros b; [reflexivity|].
  change (last (c :: t) d = last (c :: t) d'). apply IH.
Qed.

(** The gaps telescope: they add up to last minus first. *)
Lemma gaps_sum a t :
  fold_right Rplus 0 (gaps (a :: t)) = last (a :: t) a - a.
Proof.
  revert a. induction t as [|b t IH]; intros a.
  - simpl. lra.
  - rewrite gaps_cons. simpl fold_right. rewrite IH.
    change (last (a :: b :: t) a) with (last (b :: t) a).
    rewrite (last_nonempty_default b t a b). lra.
Qed.

(** ** Arrays built from their entries *)

Lemma vector_length {A : Type} k (f : nat -> A) : length (Np.vector k f) = k.
Proof. unfold Np.vector. now rewrite length_map, length_seq. Qed.


Lemma vector_Forall {A : Type} (P : A -> Prop) k (f : nat -> A) :
  (forall j, (j < k)%nat -> P (f j)) -> Forall P (Np.vector k f).
Proof.
  intros H. unfold Np.vector. apply Forall_map, Forall_forall.
  intros j Hj. apply in_seq in Hj. apply H. lia.
Qed.

Lemma vector_finite_batch m (f : nat -> list R) :
  Np.vector m (fun i => map Fin (f i)) = finite_batch (Np.vector m f).
Proof. unfold Np.vector, finite_batch. now rewrite map_map. Qed.


Lemma map2_length {A B C : Type} (f : A -> B -> C) l l' :
  length l' = length l -> length (Np.map2 f l l') = length l.
Proof.
  revert l'. induction l as [|x l IH]; intros [|y l']; simpl;
    try discriminate; auto.
Qed.

(** ** The L1 branch of [random_sphere] *)

Lemma endpoint_range r w i :
  unit_variate (unit_radius w i) -> 0 <= r -> 0 <= endpoint r w i <= r.
Proof.
  intros [H0 H1] Hr. unfold endpoint, Np.uniform. split; [apply sqrt_pos|].
  apply Rle_trans with (sqrt (r * r)).
  - apply sqrt_le_1_alt. nra.
  - rewrite sqrt_square by assumption. lra.
Qed.

Lemma removelast_zeros k : removelast (repeat 0 (S k)) = repeat 0 k.
Proof.
  induction k as [|k IH]; [reflexivity|].
  change (repeat 0 (S (S k))) with (0 :: repeat 0 (S k)).
  change (removelast (0 :: repeat 0 (S k)))
    with (0 :: removelast (repeat 0 (S k))).
  now rewrite IH.
Qed.

Lemma set_last_zeros k b : Np.set_last (repeat 0 (S k)) b = repeat 0 k ++ [b].
Proof.
  unfold Np.set_last. rewrite <- (removelast_zeros k). reflexivity.
Qed.

Lemma set_inner_snoc first mid b xs :
  Np.set_inner (first :: mid ++ [b]) xs = first :: xs ++ [b].
Proof.
  unfold Np.set_inner. destruct (mid ++ [b]) as [|y t] eqn:E.
  - destruct mid; discriminate.
  - rewrite <- E. do 3 f_equal.
    rewrite app_comm_cons. apply last_last.
Qed.

(** For [n >= 1] the row is a zero, the sorted cut points, the endpoint. *)
Lemma cuts_row_shape n r w i :
  (1 <= n)%nat ->
  cuts_row n r w i = 0 :: cut_points n r w i ++ [endpoint r w i].
Proof.
  intros Hn. unfold cuts_row.
  destruct n as [|k]; [lia|].
  rewrite Nat.add_1_r, set_last_zeros.
  change (repeat 0 (S k)) with (0 :: repeat 0 k).
  rewrite <- app_comm_cons. apply set_inner_snoc.
Qed.

Lemma cut_points_range n r w i :
  (forall j, unit_variate (unit_cut w i j)) ->
  Forall (fun c => 0 <= c <= endpoint r w i) (cut_points n r w i).
Proof.
  intros Hu. unfold cut_points. apply sort_Forall, vector_Forall.
  intros j _. destruct (Hu j) as [H0 H1].
  assert (0 <= endpoint r w i) by apply sqrt_pos.
  unfold Np.uniform. nra.
Qed.

Lemma cuts_row_sorted n r w i :
  (forall j, unit_variate (unit_cut w i j)) -> (1 <= n)%nat ->
  Sorted Rle (cuts_row n r w i).
Proof.
  intros Hu Hn. pose proof (cut_points_range n r w i Hu) as Hrange.
  rewrite cuts_row_shape by assumption. constructor.
  - apply sorted_snoc; [apply sort_sorted|].
    eapply Forall_impl; [|exact Hrange]. simpl. intros c Hc. lra.
  - destruct (cut_points n r w i) as [|c cs]; simpl; constructor.
    + apply sqrt_pos.
    + inversion Hrange; subst. lra.
Qed.

Lemma cuts_row_length n r w i :
  (1 <= n)%nat -> length (cuts_row n r w i) = S n.
Proof.
  intros Hn. rewrite cuts_row_shape by assumption.
  unfold cut_points. simpl.
  rewrite length_app, sort_length, vector_length. simpl. lia.
Qed.

Lemma cuts_row_last n r w i d :
  (1 <= n)%nat -> last (cuts_row n r w i) d = endpoint r w i.
Proof.
  intros Hn. rewrite cuts_row_shape by assumption.
  rewrite app_comm_cons. apply last_last.
Qed.

Lemma gaps_cuts_row_length n r w i :
  (1 <= n)%nat -> length (gaps (cuts_row n r w i)) = n.
Proof.
  intros Hn. rewrite gaps_length, cuts_row_length by assumption. lia.
Qed.

Lemma gaps_cuts_row_sum n r w i :
  (1 <= n)%nat ->
  fold_right Rplus 0 (gaps (cuts_row n r w i)) = endpoint r w i.
Proof.
  intros Hn. rewrite (cuts_row_shape n r w i Hn) at 1. rewrite gaps_sum.
  rewrite <- (cuts_row_shape n r w i Hn), cuts_row_last by assumption. lra.
Qed.

(** Signs do not change absolute values. *)
Lemma norm_l1_signed g s :
  length s = length g ->
  Forall (fun x => 0 <= x) g ->
  Forall (fun x => x = 1 \/ x = -1) s ->
  Np.norm_l1 (Np.map2 Rmult g s) = fold_right Rplus 0 g.
Proof.
  intros Hlen Hg. revert s Hlen.
  induction Hg as [|x g Hx _ IH]; intros [|y s] Hlen Hs; simpl in *;
    try discriminate; [reflexivity|].
  inversion Hs as [|? ? Hy Hs']; subst.
  rewrite IH by (auto; lia). f_equal.
  rewrite Rabs_mult, (Rabs_pos_eq x) by assumption.
  destruct Hy as [-> | ->]; [rewrite Rabs_R1 | rewrite Rabs_minus_one]; lra.
Qed.

Lemma sign_row_signs n w i :
  Forall (fun x => x = 1 \/ x = -1) (sign_row n w i).
Proof.
  apply vector_Forall. intros j _. unfold choice_sign.
  destruct (sign_index w i j); auto.
Qed.

Lemma l1_row_norm n r w i :
  (forall j, unit_variate (unit_cut w i j)) -> (1 <= n)%nat ->
  Np.norm_l1 (l1_row n r w i) = endpoint r w i.
Proof.
  intros Hu Hn. unfold l1_row.
  rewrite norm_l1_signed.
  - now apply gaps_cuts_row_sum.
  - unfold sign_row. now rewrite vector_length, gaps_cuts_row_length.
  - now apply gaps_nonneg, cuts_row_sorted.
  - apply sign_row_signs.
Qed.

Lemma l1_row_length n r w i :
  (1 <= n)%nat -> length (l1_row n r w i) = n.
Proof.
  intros Hn. unfold l1_row. rewrite map2_length.
  - now apply gaps_cuts_row_length.
  - unfold sign_row. now rewrite vector_length, gaps_cuts_row_length.
Qed.

Lemma sphere_l1_rows m n r w :
  (1 <= n)%nat ->
  sphere_l1 m n r w = Ok (finite_batch (Np.vector m (l1_row n r w))).
Proof.
  intros Hn. unfold sphere_l1. destruct n as [|n]; [lia|].
  now rewrite vector_finite_batch.
Qed.

(** ** The L2 branch of [random_sphere] *)

Lemma Rpower_unit g y : 0 < g <= 1 -> 0 < y -> 0 < Rpower g y <= 1.
Proof.
  intros [Hg0 Hg1] Hy. unfold Rpower. split; [apply exp_pos|].
  assert (Hln : ln g <= 0).
  { destruct Hg1 as [Hlt | ->]; [|rewrite ln_1; lra].
    pose proof (ln_increasing g 1 Hg0 Hlt) as H. rewrite ln_1 in H. lra. }
  assert (Hle : y * ln g <= 0) by nra.
  destruct Hle as [Hlt | ->]; [|rewrite exp_0; lra].
  pose proof (exp_increasing _ _ Hlt) as H. rewrite exp_0 in H. lra.
Qed.

Lemma power_unit g y :
  0 <= g <= 1 -> 0 < y ->
  exists c, Np.power g y = Fin c /\ 0 <= c <= 1.
Proof.
  intros Hg Hy. unfold Np.power. sign_cases g.
  - sign_cases y. exists 0. split; [reflexivity|lra].
  - exists (Rpower g y). split; [reflexivity|].
    assert (0 < Rpower g y <= 1) by (apply Rpower_unit; lra). lra.
Qed.

Lemma inv_INR_pos n : (1 <= n)%nat -> 0 < 1 / INR n.
Proof.
  intros Hn. apply Rdiv_lt_0_compat; [lra|].
  apply lt_0_INR. lia.
Qed.

Lemma base_finite gammainc n r w i :
  regularized gammainc -> (1 <= n)%nat -> 0 < r -> s2 n w i <> 0 ->
  exists b, base gammainc n r w i = Fin b /\
            0 <= b /\ b * sqrt (s2 n w i) <= r.
Proof.
  intros Hg Hn Hr Hs. unfold base.
  destruct (power_unit (gammainc (INR n / 2) (s2 n w i / 2)) (1 / INR n))
    as (c & -> & Hc); [| now apply inv_INR_pos |].
  { pose proof (sum_sq_nonneg (gauss_row n w i)) as H. fold (s2 n w i) in H.
    apply Hg; [|lra].
    assert (0 < INR n) by (apply lt_0_INR; lia). lra. }
  assert (Hpos : 0 < sqrt (s2 n w i)).
  { apply sqrt_lt_R0. pose proof (sum_sq_nonneg (gauss_row n w i)).
    unfold s2 in *. lra. }
  simpl. destruct (Req_dec_T (sqrt (s2 n w i)) 0) as [H0|_]; [lra|].
  exists (c * r / sqrt (s2 n w i)). split; [reflexivity|]. split.
  - apply Rmult_le_pos; [nra|]. left. now apply Rinv_0_lt_compat.
  - replace (c * r / sqrt (s2 n w i) * sqrt (s2 n w i)) with (c * r)
      by (field; lra).
    nra.
Qed.

Lemma gauss_row_length n w i : length (gauss_row n w i) = n.
Proof. apply vector_length. Qed.

Lemma l2_row_contained gammainc n r w i :
  regularized gammainc -> (1 <= n)%nat -> 0 < r -> s2 n w i <> 0 ->
  exists row,
    map (fun x => Float.mul (Fin x) (base gammainc n r w i)) (gauss_row n w i)
      = map Fin row /\
    length row = n /\ Np.norm_l2 row <= r.
Proof.
  intros Hg Hn Hr Hs.
  destruct (base_finite gammainc n r w i Hg Hn Hr Hs) as (b & -> & Hb0 & Hb).
  exists (map (fun x => x * b) (gauss_row n w i)).
  split; [now rewrite map_map|].
  split; [now rewrite length_map, gauss_row_length|].
  rewrite norm_l2_scale, Rabs_pos_eq by assumption. exact Hb.
Qed.

(** Rows chosen one by one make a batch. *)
Lemma vector_choose {A B : Type} (P : nat -> B -> Prop) (inj : B -> A)
      (f : nat -> A) m :
  (forall i, (i < m)%nat -> exists b, f i = inj b /\ P i b) ->
  exists bs, Np.vector m f = map inj bs /\ length bs = m /\
             forall i b, nth_error bs i = Some b -> P i b.
Proof.
  unfold Np.vector. induction m as [|m IH]; intros H.
  - exists []. repeat split. intros [|i] b; discriminate.
  - destruct IH as (bs & Hbs & Hlen & HP); [intros i Hi; apply H; lia|].
    destruct (H m) as (b & Hb & Pb); [lia|].
    exists (bs ++ [b]). rewrite seq_S, !map_app, Hbs. simpl. rewrite Hb.
    split; [reflexivity|].
    split; [rewrite length_app; simpl; lia|].
    intros i c Hi.
    destruct (Nat.lt_ge_cases i (length bs)) as [Hlt|Hge].
    + rewrite nth_error_app1 in Hi by assumption. now apply HP.
    + rewrite nth_error_app2 in Hi by assumption.
      destruct (i - length bs)%nat as [|k] eqn:Hk; simpl in Hi.
      * injection Hi as <-. replace i with m by lia. exact Pb.
      * destruct k; discriminate.
Qed.

(** ** The L-infinity branch of [random_sphere] *)

Lemma uniform_cube_abs r x :
  0 <= r -> unit_variate x -> Rabs (Np.uniform (- r) r x) <= r.
Proof.
  intros Hr [H0 H1]. unfold Np.uniform. apply Rabs_le. nra.
Qed.

Lemma sphere_linf_rows m n r w :
  sphere_linf m n r w
    = finite_batch
        (Np.matrix m n (fun i j => Np.uniform (- r) r (unit_cube w i j))).
Proof.
  unfold sphere_linf, Np.matrix, Np.vector, finite_batch.
  rewrite map_map. apply map_ext. intros i. now rewrite map_map.
Qed.

(** ** The claims on [random_sphere] *)

Lemma zero_draws_valid : valid_draws zero_draws.
Proof.
  unfold valid_draws, unit_variate. simpl. repeat split; intros; lra.
Qed.

(** With an all-zero normal draw the row is [0 * (x / 0)], whatever
    [gammainc] returns. *)
Lemma zero_gauss_nan gammainc :
  random_sphere gammainc 1 1 1 zero_draws (PyInt 2) = Ok [[NaN]].
Proof.
  cbn [random_sphere sphere_l2 Np.vector seq map gauss_row gauss zero_draws].
  unfold base, s2. cbn [gauss_row Np.vector seq map gauss zero_draws Np.sum_sq
                         fold_right].
  replace (0 * 0 + 0) with 0 by lra. rewrite sqrt_0.
  do 3 f_equal.
  destruct (Np.power (gammainc (INR 1 / 2) (0 / 2)) (1 / INR 1)) as [c| | |];
    cbn [Float.mul Float.div].
  - destruct (Req_dec_T 0 0) as [_|H]; [|lra].
    unfold Float.signed_inf. sign_cases (c * 1); simpl;
      unfold Float.signed_inf; sign_cases 0; reflexivity.
  - unfold Float.signed_inf. sign_cases 1. simpl.
    destruct (Rlt_dec 0 0); [lra|]. simpl.
    unfold Float.signed_inf. sign_cases 0. reflexivity.
  - unfold Float.signed_inf. sign_cases 1. simpl.
    destruct (Rlt_dec 0 0); [lra|]. simpl.
    unfold Float.signed_inf. sign_cases 0. reflexivity.
  - reflexivity.
Qed.

(** C3, as stated, fails: the all-zero realization is a valid one, and for
    [norm = 2], [m = n = 1], [r = 1] it makes the only row NaN, so no batch
    of finite rows of norm at most [r] is returned. *)
Lemma random_sphere_zero_gauss_not_contained :
  valid_draws zero_draws /\
  (forall gammainc,
      random_sphere gammainc 1 1 1 zero_draws (PyInt 2) = Ok [[NaN]]) /\
  (forall gammainc out,
      random_sphere gammainc 1 1 1 zero_draws (PyInt 2)
        <> Ok (finite_batch out)).
Proof.
  split; [apply zero_draws_valid|]. split; [apply zero_gauss_nan|].
  intros gammainc out. rewrite zero_gauss_nan.
  destruct out as [|[|x row] out]; discriminate.
Qed.

(** C3, amended: for [n >= 1], [r > 0], a supported norm and every
    realization of the draws in which, for [norm = 2], no row of normal
    draws is all zero (its sum of squares is not [0]), [random_sphere]
    returns [m] finite rows of length [n], each of [p]-norm at most [r]. *)
Theorem random_sphere_contained gammainc m n r w p :
  regularized gammainc -> valid_draws w ->
  (1 <= n)%nat -> 0 < r -> supported p ->
  (p = PyInt 2 -> forall i, (i < m)%nat -> s2 n w i <> 0) ->
  exists out,
    random_sphere gammainc m n r w p = Ok (finite_batch out) /\
    length out = m /\
    Forall (fun row => length row = n /\ lp_norm p row <= r) out.
Proof.
  intros Hg (Hrad & Hcut & Hcube) Hn Hr Hp Hs2.
  destruct Hp as [-> | [-> | ->]]; simpl.
  - exists (Np.vector m (l1_row n r w)).
    split; [now apply sphere_l1_rows|].
    split; [apply vector_length|].
    apply vector_Forall. intros i _.
    split; [now apply l1_row_length|].
    rewrite l1_row_norm by auto.
    apply endpoint_range; [apply Hrad | lra].
  - destruct (vector_choose
                (fun _ row => length row = n /\ Np.norm_l2 row <= r)
                (map Fin)
                (fun i => map (fun x => Float.mul (Fin x) (base gammainc n r w i))
                            (gauss_row n w i)) m)
      as (out & Hout & Hlen & Hrows).
    { intros i Hi. apply l2_row_contained; auto. }
    exists out. unfold sphere_l2. destruct n as [|n']; [lia|].
    split; [now rewrite Hout|].
    split; [exact Hlen|].
    apply Forall_forall. intros row Hin.
    apply In_nth_error in Hin as [i Hi]. eapply Hrows; eassumption.
  - exists (Np.matrix m n (fun i j => Np.uniform (- r) r (unit_cube w i j))).
    split; [now rewrite sphere_linf_rows|].
    split; [apply vector_length|].
    apply vector_Forall. intros i _.
    split; [apply vector_length|].
    apply norm_linf_bound; [lra|].
    apply vector_Forall. intros j _.
    apply uniform_cube_abs; [lra | apply Hcube].
Qed.

Lemma gammainc_one_regularized : regularized gammainc_one.
Proof.
  intros a x _ Hx. unfold gammainc_one.
  pose proof (exp_pos (- x)) as Hpos.
  assert (exp (- x) <= 1); [|lra].
  destruct Hx as [Hlt | <-].
  - assert (H : - x < 0) by lra.
    apply exp_increasing in H. rewrite exp_0 in H. lra.
  - rewrite Ropp_0, exp_0. lra.
Qed.

Lemma half_draws_valid : valid_draws half_draws.
Proof.
  unfold valid_draws, unit_variate. simpl. repeat split; intros; lra.
Qed.

Lemma random_sphere_contained_witness :
  exists out,
    random_sphere gammainc_one 2 2 1 half_draws (PyInt 2)
      = Ok (finite_batch out) /\
    length out = 2%nat /\
    Forall (fun row => length row = 2%nat /\ lp_norm (PyInt 2) row <= 1) out.
Proof.
  apply random_sphere_contained.
  - apply gammainc_one_regularized.
  - apply half_draws_valid.
  - lia.
  - lra.
  - right; left; reflexivity.
  - intros _ i _. unfold s2. simpl. lra.
Defined.






(** * The label helpers *)

(** ** Operations along the first axis *)

Lemma all_returns_map {A B : Type} (f : A -> answer B) (g : A -> B) l :
  Forall (fun a => f a = Returns (g a)) l ->
  all_returns f l = Returns (map g l).
Proof.
  induction 1 as [|a l Ha _ IH]; simpl; [reflexivity|].
  now rewrite Ha, IH.
Qed.

Lemma all_returns_rows {A B : Type} (f : A -> answer B) l bs :
  all_returns f l = Returns bs -> Forall2 (fun a b => f a = Returns b) l bs.
Proof.
  revert bs. induction l as [|a l IH]; simpl; intros bs H.
  - injection H as <-. constructor.
  - destruct (f a) as [b|e] eqn:Ha; [|discriminate].
    destruct (all_returns f l) as [bs'|e]; [|discriminate].
    injection H as <-. constructor; [assumption|now apply IH].
Qed.

Lemma all_returns_raises {A B : Type} (f : A -> answer B) l e :
  Forall (fun a => (exists b, f a = Returns b) \/ f a = Raises e) l ->
  Exists (fun a => f a = Raises e) l ->
  all_returns f l = Raises e.
Proof.
  induction 1 as [|a l Ha Hl IH]; intros Hex; [inversion Hex|]. simpl.
  destruct Ha as [[b Hb] | Hr]; [|now rewrite Hr].
  rewrite Hb. inversion Hex as [? ? H0|? ? H0]; subst.
  - rewrite Hb in H0. discriminate.
  - now rewrite IH.
Qed.

(** ** [np.amax] and [np.argmax] *)

Lemma fold_max_spec t x :
  In (fold_left Rmax t x) (x :: t) /\
  Forall (fun y => y <= fold_left Rmax t x) (x :: t).
Proof.
  revert x. induction t as [|y t IH]; intros x; simpl.
  - split; [now left|]. constructor; [lra|constructor].
  - destruct (IH (Rmax x y)) as [Hin Hall].
    inversion Hall as [|? ? Hm Ht]; subst. split.
    + destruct Hin as [Heq | Hin]; [|now right; right].
      assert (Hxy : Rmax x y = x \/ Rmax x y = y)
        by (unfold Rmax; destruct (Rle_dec x y); auto).
      destruct Hxy as [Hx | Hy]; [left | right; left]; congruence.
    + pose proof (Rmax_l x y). pose proof (Rmax_r x y).
      constructor; [|constructor; [|assumption]]; simpl in *; lra.
Qed.

Lemma amax_spec row mx :
  amax row = Returns mx -> In mx row /\ Forall (fun y => y <= mx) row.
Proof.
  destruct row as [|x t]; simpl; [discriminate|].
  intros [= <-]. apply fold_max_spec.
Qed.

Lemma amax_unique row m :
  In m row -> Forall (fun y => y <= m) row -> amax row = Returns m.
Proof.
  intros Hin Hall. destruct row as [|x t]; [contradiction|].
  simpl. f_equal.
  destruct (fold_max_spec t x) as [Hin' Hall'].
  rewrite Forall_forall in Hall, Hall'.
  apply Rle_antisym; [now apply Hall | now apply Hall'].
Qed.

Lemma amax_nonempty row : row <> [] -> exists mx, amax row = Returns mx.
Proof.
  destruct row as [|x t]; [contradiction|]. intros _. now eexists.
Qed.

(** The scan keeps the first maximal entry of what it has seen. *)
Lemma argmax_from_spec l : forall pre best besti,
  (besti < length pre)%nat ->
  nth besti pre 0 = best ->
  Forall (fun y => y <= best) pre ->
  (forall b, (b < besti)%nat -> nth b pre 0 < best) ->
  let a := argmax_from best besti (length pre) l in
  (a < length (pre ++ l))%nat /\
  Forall (fun y => y <= nth a (pre ++ l) 0) (pre ++ l) /\
  (forall b, (b < a)%nat -> nth b (pre ++ l) 0 < nth a (pre ++ l) 0).
Proof.
  induction l as [|x l IH]; intros pre best besti Hlt Hnth Hall Hfirst; simpl.
  - rewrite app_nil_r, Hnth. auto.
  - replace (pre ++ x :: l) with ((pre ++ [x]) ++ l)
      by (now rewrite <- app_assoc).
    replace (S (length pre)) with (length (pre ++ [x]))
      by (rewrite length_app; simpl; lia).
    destruct (Rlt_dec best x) as [Hgt|Hle].
    + apply IH.
      * rewrite length_app. simpl. lia.
      * rewrite app_nth2 by lia. now rewrite Nat.sub_diag.
      * apply Forall_app. split; [|constructor; [lra|constructor]].
        eapply Forall_impl; [|exact Hall]. simpl. intros; lra.
      * intros b Hb. rewrite app_nth1 by assumption.
        rewrite Forall_forall in Hall.
        pose proof (Hall (nth b pre 0) (nth_In pre 0 Hb)). lra.
    + apply IH.
      * rewrite length_app. simpl. lia.
      * now rewrite app_nth1.
      * apply Forall_app. split; [assumption|constructor; [lra|constructor]].
      * intros b Hb. rewrite app_nth1 by lia. now apply Hfirst.
Qed.

Lemma argmax_spec row a :
  argmax row = Returns a ->
  (a < length row)%nat /\
  Forall (fun y => y <= nth a row 0) row /\
  (forall b, (b < a)%nat -> nth b row 0 < nth a row 0).
Proof.
  destruct row as [|x t]; simpl; [discriminate|]. intros [= <-].
  apply (argmax_from_spec t [x] x 0%nat); simpl; auto.
  - constructor; [lra|constructor].
  - intros b Hb. lia.
Qed.

Lemma argmax_nonempty row : row <> [] -> exists a, argmax row = Returns a.
Proof.
  destruct row as [|x t]; [contradiction|]. intros _. now eexists.
Qed.

(** The maximal value is the entry at the index [np.argmax] returns. *)
Lemma amax_at_argmax row a mx :
  argmax row = Returns a -> amax row = Returns mx -> nth a row 0 = mx.
Proof.
  intros Ha Hm.
  destruct (argmax_spec row a Ha) as (Hlt & Hall & _).
  destruct (amax_spec row mx Hm) as (Hin & Hall').
  rewrite Forall_forall in Hall, Hall'.
  apply Rle_antisym; [apply Hall', nth_In; assumption | now apply Hall].
Qed.

(** ** One-hot rows *)

Lemma set_entry_length row j x : length (set_entry row j x) = length row.
Proof.
  revert j. induction row as [|y row IH]; intros [|j]; simpl; auto.
Qed.

Lemma nth_set_entry_same row j x d :
  (j < length row)%nat -> nth j (set_entry row j x) d = x.
Proof.
  revert j. induction row as [|y row IH]; intros [|j]; simpl; intros H;
    try lia; auto. apply IH. lia.
Qed.

Lemma nth_set_entry_other row i j x d :
  i <> j -> nth i (set_entry row j x) d = nth i row d.
Proof.
  revert i j. induction row as [|y row IH]; intros [|i] [|j] H; simpl;
    try reflexivity; try contradiction. apply IH. lia.
Qed.

Lemma onehot_length k j : length (onehot k j) = k.
Proof. unfold onehot. now rewrite set_entry_length, repeat_length. Qed.

Lemma onehot_nth_same k j : (j < k)%nat -> nth j (onehot k j) 0 = 1.
Proof.
  intros H. unfold onehot. apply nth_set_entry_same.
  now rewrite repeat_length.
Qed.

Lemma onehot_nth_other k i j : i <> j -> nth i (onehot k j) 0 = 0.
Proof.
  intros H. unfold onehot. rewrite nth_set_entry_other by assumption.
  apply nth_repeat.
Qed.

Lemma onehot_entries k j : Forall (fun x => x = 0 \/ x = 1) (onehot k j).
Proof.
  apply Forall_forall. intros x Hin.
  destruct (In_nth _ _ 0 Hin) as (i & Hi & <-).
  rewrite onehot_length in Hi.
  destruct (Nat.eq_dec i j) as [-> | Hne].
  - right. now apply onehot_nth_same.
  - left. now apply onehot_nth_other.
Qed.

Lemma onehot_amax k j : (j < k)%nat -> amax (onehot k j) = Returns 1.
Proof.
  intros H. apply amax_unique.
  - rewrite <- (onehot_nth_same k j H). apply nth_In.
    now rewrite onehot_length.
  - eapply Forall_impl; [|apply onehot_entries].
    simpl. intros x [-> | ->]; lra.
Qed.

Lemma onehot_argmax k j : (j < k)%nat -> argmax (onehot k j) = Returns j.
Proof.
  intros H.
  destruct (argmax_nonempty (onehot k j)) as [a Ha].
  { intros E. apply (f_equal (@length R)) in E.
    rewrite onehot_length in E. simpl in E. lia. }
  rewrite Ha. f_equal.
  pose proof (amax_at_argmax _ _ _ Ha (onehot_amax k j H)) as Hval.
  destruct (Nat.eq_dec a j) as [|Hne]; [assumption|].
  rewrite onehot_nth_other in Hval by assumption. lra.
Qed.

Lemma onehot_max_indicator k j :
  (j < k)%nat -> max_indicator (onehot k j) = Returns (onehot k j).
Proof.
  intros H. unfold max_indicator. rewrite onehot_amax by assumption.
  f_equal. apply map_id_on.
  eapply Forall_impl; [|apply onehot_entries]. simpl.
  intros x [-> | ->]; destruct (Req_dec_T _ 1); lra.
Qed.

(** ** [to_categorical] *)

Lemma column_in_range k l : in_classes k l -> column k l = Some (Z.to_nat l).
Proof.
  intros [H0 Hk]. unfold column.
  apply Z.leb_le in H0. apply Z.ltb_lt in Hk. now rewrite H0, Hk.
Qed.

Lemma column_negative k l :
  (- k <= l < 0)%Z -> column k l = Some (Z.to_nat (k + l)).
Proof.
  intros [H0 Hk]. unfold column.
  replace (0 <=? l)%Z with false by (symmetry; apply Z.leb_gt; lia).
  apply Z.leb_le in H0. apply Z.ltb_lt in Hk. simpl. now rewrite H0, Hk.
Qed.


Lemma class_count_given labels k :
  (0 < k)%Z -> class_count labels (Some k) = Returns k.
Proof. intros H. destruct k; simpl; try lia; reflexivity. Qed.

Lemma to_categorical_given labels k :
  (0 < k)%Z ->
  to_categorical labels (Some k) = all_returns (categorical_row k) labels.
Proof.
  intros H. unfold to_categorical. rewrite class_count_given by assumption.
  replace (k <? 0)%Z with false by (symmetry; apply Z.ltb_ge; lia).
  reflexivity.
Qed.

Lemma to_categorical_in_range labels k :
  (0 < k)%Z -> Forall (in_classes k) labels ->
  to_categorical labels (Some k)
    = Returns (map (fun l => onehot (Z.to_nat k) (Z.to_nat l)) labels).
Proof.
  intros Hk Hl. rewrite to_categorical_given by assumption.
  apply all_returns_map.
  eapply Forall_impl; [|exact Hl]. simpl. intros l Hin.
  unfold categorical_row. now rewrite column_in_range.
Qed.

Lemma all_returns_map_map {A B C : Type} (f : B -> answer C) (h : A -> B)
      (g : A -> C) l :
  Forall (fun a => f (h a) = Returns (g a)) l ->
  all_returns f (map h l) = Returns (map g l).
Proof.
  induction 1 as [|a l Ha _ IH]; simpl; [reflexivity|].
  now rewrite Ha, IH.
Qed.

Lemma map_const {A B : Type} (b : B) (l : list A) :
  map (fun _ => b) l = repeat b (length l).
Proof. induction l as [|a l IH]; simpl; [reflexivity|now rewrite IH]. Qed.

Lemma in_classes_to_nat k l :
  in_classes k l -> (Z.to_nat l < Z.to_nat k)%nat.
Proof. intros [H0 Hk]. lia. Qed.

Ltac in_classes_list :=
  repeat constructor; unfold in_classes; lia.

(** [to_categorical] with the number of classes given and every label
    naming a class: one row per label, [nb_classes] entries per row, a one
    in the column of the label and zeros elsewhere. *)
Theorem to_categorical_one_hot labels k :
  (0 < k)%Z -> Forall (in_classes k) labels ->
  exists out,
    to_categorical labels (Some k) = Returns out /\
    length out = length labels /\
    forall i l, nth_error labels i = Some l ->
      exists row,
        nth_error out i = Some row /\
        length row = Z.to_nat k /\
        forall j, (j < Z.to_nat k)%nat ->
          nth j row 0 = if (Z.of_nat j =? l)%Z then 1 else 0.
Proof.
  intros Hk Hl. eexists. split; [now apply to_categorical_in_range|].
  split; [apply length_map|].
  intros i l Hi. exists (onehot (Z.to_nat k) (Z.to_nat l)).
  split; [now rewrite nth_error_map, Hi|].
  split; [apply onehot_length|].
  intros j Hj.
  assert (Hin : in_classes k l).
  { rewrite Forall_forall in Hl. eapply Hl, nth_error_In; eassumption. }
  destruct (Z.eqb_spec (Z.of_nat j) l) as [<- | Hne].
  - rewrite Nat2Z.id. now apply onehot_nth_same.
  - apply onehot_nth_other. destruct Hin. lia.
Qed.

Lemma to_categorical_one_hot_witness :
  exists out,
    to_categorical [2; 0; 1]%Z (Some 3%Z) = Returns out /\
    length out = length [2; 0; 1]%Z /\
    forall i l, nth_error [2; 0; 1]%Z i = Some l ->
      exists row,
        nth_error out i = Some row /\
        length row = Z.to_nat 3 /\
        forall j, (j < Z.to_nat 3)%nat ->
          nth j row 0 = if (Z.of_nat j =? l)%Z then 1 else 0.
Proof.
  apply to_categorical_one_hot; [lia | in_classes_list].
Defined.

Lemma get_label_conf_onehots labels k :
  Forall (in_classes k) labels ->
  get_label_conf (map (fun l => onehot (Z.to_nat k) (Z.to_nat l)) labels)
    = Returns (repeat 1 (length labels), map Z.to_nat labels).
Proof.
  intros Hl. unfold get_label_conf.
  rewrite (all_returns_map_map amax _ (fun _ => 1)).
  - rewrite (all_returns_map_map argmax _ Z.to_nat).
    + now rewrite map_const.
    + eapply Forall_impl; [|exact Hl]. simpl. intros l Hin.
      now apply onehot_argmax, in_classes_to_nat.
  - eapply Forall_impl; [|exact Hl]. simpl. intros l Hin.
    now apply onehot_amax, in_classes_to_nat.
Qed.

(** Decoding inverts encoding: on the matrix [to_categorical] returns,
    [get_label_conf] finds the labels it was given, each with confidence
    one. *)
Theorem get_label_conf_to_categorical labels k :
  (0 < k)%Z -> Forall (in_classes k) labels ->
  exists out,
    to_categorical labels (Some k) = Returns out /\
    get_label_conf out
      = Returns (repeat 1 (length labels), map Z.to_nat labels).
Proof.
  intros Hk Hl. eexists. split; [now apply to_categorical_in_range|].
  now apply get_label_conf_onehots.
Qed.

Lemma get_label_conf_to_categorical_witness :
  exists out,
    to_categorical [2; 0; 1]%Z (Some 3%Z) = Returns out /\
    get_label_conf out
      = Returns (repeat 1 (length [2; 0; 1]%Z), map Z.to_nat [2; 0; 1]%Z).
Proof.
  apply get_label_conf_to_categorical; [lia | in_classes_list].
Defined.



(** A negative label counts from the last class: [l - nb_classes] is
    encoded as [l] is. *)
Theorem to_categorical_negative_labels labels k :
  (0 < k)%Z -> Forall (in_classes k) labels ->
  to_categorical (map (fun l => (l - k)%Z) labels) (Some k)
    = to_categorical labels (Some k).
Proof.
  intros Hk Hl. rewrite (to_categorical_in_range labels k Hk Hl).
  rewrite to_categorical_given by assumption.
  apply all_returns_map_map.
  eapply Forall_impl; [|exact Hl]. simpl. intros l [H0 H1].
  unfold categorical_row. rewrite column_negative by lia.
  replace (k + (l - k))%Z with l by lia. reflexivity.
Qed.

Lemma to_categorical_negative_labels_witness :
  to_categorical (map (fun l => (l - 3)%Z) [2; 0; 1]%Z) (Some 3%Z)
    = to_categorical [2; 0; 1]%Z (Some 3%Z).
Proof.
  apply to_categorical_negative_labels; [lia | in_classes_list].
Defined.




(** A one-hot matrix is its own indicator of row maxima:
    [get_labels_np_array] returns what [to_categorical] returned. *)
Theorem get_labels_np_array_to_categorical labels k :
  (0 < k)%Z -> Forall (in_classes k) labels ->
  exists out,
    to_categorical labels (Some k) = Returns out /\
    get_labels_np_array out = Returns out.
Proof.
  intros Hk Hl. eexists. split; [now apply to_categorical_in_range|].
  unfold get_labels_np_array.
  rewrite (all_returns_map_map max_indicator _
             (fun l => onehot (Z.to_nat k) (Z.to_nat l))); [reflexivity|].
  eapply Forall_impl; [|exact Hl]. simpl. intros l Hin.
  now apply onehot_max_indicator, in_classes_to_nat.
Qed.

Lemma get_labels_np_array_to_categorical_witness :
  exists out,
    to_categorical [2; 0; 1]%Z (Some 3%Z) = Returns out /\
    get_labels_np_array out = Returns out.
Proof.
  apply get_labels_np_array_to_categorical; [lia | in_classes_list].
Defined.

(** ** [get_label_conf] and [get_labels_np_array] *)

Lemma all_returns_total {A B : Type} (f : A -> answer B) l :
  Forall (fun a => exists b, f a = Returns b) l ->
  exists bs, all_returns f l = Returns bs.
Proof.
  induction 1 as [|a l [b Hb] _ [bs IH]]; simpl; [now eexists|].
  rewrite Hb, IH. now eexists.
Qed.

Lemma all_returns_fixed {A : Type} (f : A -> answer A) l :
  Forall (fun a => f a = Returns a) l -> all_returns f l = Returns l.
Proof.
  intros H. rewrite (all_returns_map f (fun a => a)) by assumption.
  now rewrite map_id.
Qed.

Lemma Forall2_nth_error_left {A B : Type} (P : A -> B -> Prop) l l' i a :
  Forall2 P l l' -> nth_error l i = Some a ->
  exists b, nth_error l' i = Some b /\ P a b.
Proof.
  intros H. revert i. induction H as [|x y l l' Hxy _ IH]; intros [|i] Hi;
    simpl in *; try discriminate.
  - injection Hi as <-. now exists y.
  - now apply IH.
Qed.

Lemma nth_map_within {A B : Type} (f : A -> B) l j d d' :
  (j < length l)%nat -> nth j (map f l) d = f (nth j l d').
Proof.
  revert j. induction l as [|a l IH]; intros [|j] H; simpl in *;
    try lia; auto. apply IH. lia.
Qed.

Lemma nonempty_rows_amax y :
  Forall (fun row => row <> []) y ->
  Forall (fun row => exists mx, amax row = Returns mx) y.
Proof.
  intros H. eapply Forall_impl; [|exact H]. apply amax_nonempty.
Qed.

(** For a matrix whose rows have entries, [get_label_conf] returns, row by
    row, the largest confidence and the first column that holds it. *)
Theorem get_label_conf_first_maximum y :
  Forall (fun row => row <> []) y ->
  exists confs labels,
    get_label_conf y = Returns (confs, labels) /\
    length confs = length y /\
    length labels = length y /\
    forall i row, nth_error y i = Some row ->
      exists c a,
        nth_error confs i = Some c /\
        nth_error labels i = Some a /\
        (a < length row)%nat /\
        nth a row 0 = c /\
        Forall (fun x => x <= c) row /\
        forall b, (b < a)%nat -> nth b row 0 < c.
Proof.
  intros Hne.
  destruct (all_returns_total amax y (nonempty_rows_amax y Hne))
    as [confs Hc].
  destruct (all_returns_total argmax y) as [labels Hl].
  { eapply Forall_impl; [|exact Hne]. apply argmax_nonempty. }
  exists confs, labels. unfold get_label_conf. rewrite Hc, Hl.
  apply all_returns_rows in Hc. apply all_returns_rows in Hl.
  split; [reflexivity|].
  split; [symmetry; eapply Forall2_length; eassumption|].
  split; [symmetry; eapply Forall2_length; eassumption|].
  intros i row Hi.
  destruct (Forall2_nth_error_left _ _ _ _ _ Hc Hi) as (c & Hci & Hamax).
  destruct (Forall2_nth_error_left _ _ _ _ _ Hl Hi) as (a & Hai & Hargmax).
  exists c, a.
  destruct (argmax_spec row a Hargmax) as (Hlt & Hall & Hfirst).
  rewrite (amax_at_argmax row a c Hargmax Hamax) in Hall, Hfirst.
  repeat split; auto. now apply amax_at_argmax.
Qed.

Lemma get_label_conf_first_maximum_witness :
  exists confs labels,
    get_label_conf [[1; 3; 3]; [2; 0; 1]] = Returns (confs, labels) /\
    length confs = length [[1; 3; 3]; [2; 0; 1]] /\
    length labels = length [[1; 3; 3]; [2; 0; 1]] /\
    forall i row, nth_error [[1; 3; 3]; [2; 0; 1]] i = Some row ->
      exists c a,
        nth_error confs i = Some c /\
        nth_error labels i = Some a /\
        (a < length row)%nat /\
        nth a row 0 = c /\
        Forall (fun x => x <= c) row /\
        forall b, (b < a)%nat -> nth b row 0 < c.
Proof.
  apply get_label_conf_first_maximum.
  repeat constructor; discriminate.
Defined.

Lemma max_indicator_entries row orow :
  max_indicator row = Returns orow ->
  Forall (fun x => x = 0 \/ x = 1) orow /\ In 1 orow.
Proof.
  unfold max_indicator. destruct (amax row) as [mx|e] eqn:Hm; [|discriminate].
  intros [= <-]. split.
  - apply Forall_map, Forall_forall. intros x _.
    destruct (Req_dec_T x mx); auto.
  - destruct (amax_spec row mx Hm) as [Hin _].
    apply in_map_iff. exists mx. split; [|assumption].
    destruct (Req_dec_T mx mx); [reflexivity|contradiction].
Qed.

Lemma max_indicator_fixed row orow :
  max_indicator row = Returns orow -> max_indicator orow = Returns orow.
Proof.
  intros H. destruct (max_indicator_entries row orow H) as [Hent Hone].
  unfold max_indicator. rewrite (amax_unique orow 1 Hone).
  - f_equal. apply map_id_on.
    eapply Forall_impl; [|exact Hent]. simpl.
    intros x [-> | ->]; destruct (Req_dec_T _ 1); lra.
  - eapply Forall_impl; [|exact Hent]. simpl. intros x [-> | ->]; lra.
Qed.

(** For a matrix whose rows have entries, [get_labels_np_array] returns a
    matrix of the same shape that holds a one wherever the entry equals the
    largest of its row, and a zero elsewhere; every row holds a one, and
    holds several when the maximum is attained several times. *)
Theorem get_labels_np_array_marks_maxima preds :
  Forall (fun row => row <> []) preds ->
  exists out,
    get_labels_np_array preds = Returns out /\
    length out = length preds /\
    forall i row, nth_error preds i = Some row ->
      exists mx orow,
        amax row = Returns mx /\
        nth_error out i = Some orow /\
        length orow = length row /\
        In 1 orow /\
        forall j, (j < length row)%nat ->
          (nth j row 0 = mx -> nth j orow 0 = 1) /\
          (nth j row 0 <> mx -> nth j orow 0 = 0).
Proof.
  intros Hne.
  destruct (all_returns_total max_indicator preds) as [out Hout].
  { eapply Forall_impl; [|exact (nonempty_rows_amax preds Hne)]. simpl.
    intros row [mx Hm]. unfold max_indicator. rewrite Hm. now eexists. }
  exists out. split; [exact Hout|].
  apply all_returns_rows in Hout.
  split; [symmetry; eapply Forall2_length; eassumption|].
  intros i row Hi.
  destruct (Forall2_nth_error_left _ _ _ _ _ Hout Hi) as (orow & Hoi & Hrow).
  pose proof (max_indicator_entries row orow Hrow) as [_ Hone].
  unfold max_indicator in Hrow.
  destruct (amax row) as [mx|e] eqn:Hm; [|discriminate].
  injection Hrow as <-.
  exists mx. eexists. split; [reflexivity|]. split; [exact Hoi|].
  split; [apply length_map|]. split; [exact Hone|].
  intros j Hj.
  rewrite (nth_map_within _ row j 0 0 Hj).
  destruct (Req_dec_T (nth j row 0) mx); split; intros; auto; contradiction.
Qed.

Lemma get_labels_np_array_marks_maxima_witness :
  exists out,
    get_labels_np_array [[1; 3; 3]; [2; 0; 1]] = Returns out /\
    length out = length [[1; 3; 3]; [2; 0; 1]] /\
    forall i row, nth_error [[1; 3; 3]; [2; 0; 1]] i = Some row ->
      exists mx orow,
        amax row = Returns mx /\
        nth_error out i = Some orow /\
        length orow = length row /\
        In 1 orow /\
        forall j, (j < length row)%nat ->
          (nth j row 0 = mx -> nth j orow 0 = 1) /\
          (nth j row 0 <> mx -> nth j orow 0 = 0).
Proof.
  apply get_labels_np_array_marks_maxima.
  repeat constructor; discriminate.
Defined.

(** [get_labels_np_array] is idempotent: applied to its own result it
    returns it. *)
Theorem get_labels_np_array_idempotent preds :
  Forall (fun row => row <> []) preds ->
  exists out,
    get_labels_np_array preds = Returns out /\
    get_labels_np_array out = Returns out.
Proof.
  intros Hne.
  destruct (all_returns_total max_indicator preds) as [out Hout].
  { eapply Forall_impl; [|exact (nonempty_rows_amax preds Hne)]. simpl.
    intros row [mx Hm]. unfold max_indicator. rewrite Hm. now eexists. }
  exists out. split; [exact Hout|].
  apply all_returns_fixed. apply all_returns_rows in Hout.
  clear Hne. induction Hout as [|row orow preds out Hrow _ IH];
    constructor; [|assumption].
  now apply max_indicator_fixed with row.
Qed.

Lemma get_labels_np_array_idempotent_witness :
  exists out,
    get_labels_np_array [[1; 3; 3]; [2; 0; 1]] = Returns out /\
    get_labels_np_array out = Returns out.
Proof.
  apply get_labels_np_array_idempotent.
  repeat constructor; discriminate.
Defined.

(** A row without entries makes both reductions raise [ValueError]. *)
Theorem empty_row_raises y :
  Exists (fun row => row = []) y ->
  get_label_conf y = Raises PyValueError /\
  get_labels_np_array y = Raises PyValueError.
Proof.
  intros Hex. split.
  - unfold get_label_conf. rewrite (all_returns_raises amax y PyValueError).
    + reflexivity.
    + apply Forall_forall. intros [|x t] _; [now right | left; now eexists].
    + eapply Exists_impl; [|exact Hex]. now intros row ->.
  - apply all_returns_raises.
    + apply Forall_forall. intros [|x t] _; [now right | left; now eexists].
    + eapply Exists_impl; [|exact Hex]. now intros row ->.
Qed.

Lemma empty_row_raises_witness :
  get_label_conf [[1; 2]; []] = Raises PyValueError /\
  get_labels_np_array [[1; 2]; []] = Raises PyValueError.
Proof.
  apply empty_row_raises. right. now left.
Defined.

(** ** [random_targets] *)

Lemma py_range_In k c : In c (py_range k) <-> in_classes k c.
Proof.
  unfold py_range, in_classes. rewrite in_map_iff. split.
  - intros (i & <- & Hi). apply in_seq in Hi. lia.
  - intros H. exists (Z.to_nat c). split; [lia|]. apply in_seq. lia.
Qed.

Lemma py_range_NoDup k : NoDup (py_range k).
Proof.
  unfold py_range. apply Finite.Injective_map_NoDup; [|apply seq_NoDup].
  intros i j. apply Nat2Z.inj.
Qed.

Lemma py_range_length k : length (py_range k) = Z.to_nat k.
Proof. unfold py_range. now rewrite length_map, length_seq. Qed.

Lemma remove_first_length x l :
  In x l -> S (length (remove_first x l)) = length l.
Proof.
  induction l as [|y l IH]; simpl; [contradiction|].
  destruct (Z.eqb_spec y x) as [|Hne]; [reflexivity|].
  intros [Heq | Hin]; [contradiction|]. simpl. now rewrite IH.
Qed.

Lemma remove_first_In x y l :
  NoDup l -> In y (remove_first x l) -> In y l /\ y <> x.
Proof.
  induction 1 as [|z l Hz Hnd IH]; simpl; [contradiction|].
  destruct (Z.eqb_spec z x) as [-> | Hne].
  - intros Hin. split; [now right|]. intros ->. contradiction.
  - intros [<- | Hin]; [split; [now left|assumption]|].
    destruct (IH Hin). split; [now right|assumption].
Qed.

(** What [np.random.choice] returns for a class is another class. *)
Lemma choice_other_class k pick c :
  (2 <= k)%Z -> valid_picks k pick -> in_classes k c ->
  choice (remove_first c (py_range k)) (pick (Z.to_nat c))
    = Returns (class_target k pick c) /\
  in_classes k (class_target k pick c) /\
  class_target k pick c <> c.
Proof.
  intros Hk Hpick Hc.
  assert (Hlen : S (length (remove_first c (py_range k))) = Z.to_nat k).
  { rewrite remove_first_length; [apply py_range_length|].
    now apply py_range_In. }
  assert (Hin : In (class_target k pick c) (remove_first c (py_range k))).
  { apply nth_In. specialize (Hpick (Z.to_nat c)). lia. }
  split.
  - unfold choice, class_target.
    destruct (remove_first c (py_range k)); [simpl in Hlen; lia|reflexivity].
  - apply remove_first_In in Hin as [Hr Hne]; [|apply py_range_NoDup].
    split; [now apply py_range_In|assumption].
Qed.

Lemma map2_fuse {A B : Type} (g h : A -> B -> B) l r :
  Np.map2 g l (Np.map2 h l r) = Np.map2 (fun a b => g a (h a b)) l r.
Proof.
  revert r. induction l as [|a l IH]; intros [|b r]; simpl; try reflexivity.
  now rewrite IH.
Qed.

Lemma map2_ext_in {A B C : Type} (f g : A -> B -> C) l r :
  (forall a b, In a l -> f a b = g a b) -> Np.map2 f l r = Np.map2 g l r.
Proof.
  revert r. induction l as [|a l IH]; intros [|b r] H; simpl;
    try reflexivity.
  rewrite H by now left. f_equal. apply IH. intros; apply H; now right.
Qed.

Lemma map2_repeat_r {A B C : Type} (f : A -> B -> C) l b :
  Np.map2 f l (repeat b (length l)) = map (fun a => f a b) l.
Proof.
  induction l as [|a l IH]; simpl; [reflexivity|]. now rewrite IH.
Qed.

Lemma map2_keep {A B : Type} (l : list A) (r : list B) :
  length r = length l -> Np.map2 (fun _ b => b) l r = r.
Proof.
  revert r. induction l as [|a l IH]; intros [|b r] H; simpl in *;
    try discriminate; try reflexivity.
  rewrite IH; [reflexivity|lia].
Qed.

(** The loop, class by class: every label of a class it has passed holds
    the pick of that class, every other entry is as it was. *)
Lemma assign_targets_result classes k pick labels : forall result,
  (2 <= k)%Z -> valid_picks k pick -> Forall (in_classes k) classes ->
  length result = length labels ->
  assign_targets classes k pick labels result
    = Returns (Np.map2 (fun l r => target_of_or k pick classes l r)
                       labels result).
Proof.
  induction classes as [|c rest IH]; intros result Hk Hpick Hcs Hlen; simpl.
  - f_equal. symmetry. now apply map2_keep.
  - inversion Hcs as [|? ? Hc Hrest]; subst.
    destruct (choice_other_class k pick c Hk Hpick Hc) as (-> & _ & _).
    rewrite IH; try assumption.
    + f_equal. rewrite map2_fuse.
      apply map2_ext_in. intros l r _. unfold target_of_or.
      destruct (Z.eq_dec c l) as [-> | Hne].
      * rewrite Z.eqb_refl.
        destruct (in_dec Z.eq_dec l (l :: rest)) as [_ | Hout];
          [now destruct (in_dec Z.eq_dec l rest)|].
        exfalso. apply Hout. now left.
      * replace (l =? c)%Z with false by (symmetry; apply Z.eqb_neq; auto).
        destruct (in_dec Z.eq_dec l rest) as [Hin | Hout];
          destruct (in_dec Z.eq_dec l (c :: rest)) as [Hin' | Hout'];
          try reflexivity.
        -- exfalso. apply Hout'. now right.
        -- exfalso. destruct Hin' as [Heq | Hin']; auto.
    + now rewrite map2_length.
Qed.

Lemma target_of_class k pick l :
  (2 <= k)%Z -> valid_picks k pick ->
  in_classes k (target_of k pick (py_range k) l) /\
  target_of k pick (py_range k) l <> l.
Proof.
  intros Hk Hpick. unfold target_of, target_of_or.
  destruct (in_dec Z.eq_dec l (py_range k)) as [Hin | Hout].
  - apply py_range_In in Hin.
    now destruct (choice_other_class k pick l Hk Hpick Hin) as (_ & ? & ?).
  - split; [unfold in_classes; lia|].
    intros <-. apply Hout, py_range_In. unfold in_classes. lia.
Qed.

(** The matrix [random_targets] returns for an array of labels: the
    one-hot rows of the targets. *)
Lemma random_targets_rows labels k pick :
  (2 <= k)%Z -> valid_picks k pick ->
  random_targets (Labels labels) k pick
    = Returns (map (fun l => onehot (Z.to_nat k)
                               (Z.to_nat (target_of k pick (py_range k) l)))
                   labels).
Proof.
  intros Hk Hpick. unfold random_targets. cbn [class_labels].
  rewrite assign_targets_result; try assumption.
  - rewrite map2_repeat_r.
    rewrite to_categorical_in_range; [now rewrite map_map | lia |].
    apply Forall_map, Forall_forall. intros l _.
    now apply target_of_class.
  - apply Forall_forall. intros c. apply py_range_In.
  - apply repeat_length.
Qed.

Lemma valid_picks_first k : (2 <= k)%Z -> valid_picks k (fun _ => 0%nat).
Proof. intros Hk c. lia. Qed.

(** With at least two classes, [random_targets] returns one one-hot row
    per label, and the class a row encodes is a class other than the label
    it was drawn for. *)
Theorem random_targets_differ labels k pick :
  (2 <= k)%Z -> valid_picks k pick ->
  exists out confs targets,
    random_targets (Labels labels) k pick = Returns out /\
    length out = length labels /\
    get_label_conf out = Returns (confs, targets) /\
    Forall2 (fun l t => Z.of_nat t <> l /\ (Z.of_nat t < k)%Z)
            labels targets.
Proof.
  intros Hk Hpick.
  pose (tg := target_of k pick (py_range k)).
  assert (Htg : Forall (in_classes k) (map tg labels)).
  { apply Forall_map, Forall_forall. intros l _.
    now apply target_of_class. }
  exists (map (fun l => onehot (Z.to_nat k) (Z.to_nat (tg l))) labels).
  exists (repeat 1 (length (map tg labels))).
  exists (map Z.to_nat (map tg labels)).
  split; [now apply random_targets_rows|].
  split; [apply length_map|].
  split.
  - rewrite <- (get_label_conf_onehots (map tg labels) k Htg).
    now rewrite map_map.
  - clear Htg. induction labels as [|l labels IH]; simpl; constructor;
      [|exact IH].
    destruct (target_of_class k pick l Hk Hpick) as [[H0 H1] Hne].
    fold (tg l) in H0, H1, Hne. rewrite Z2Nat.id by assumption. auto.
Qed.

Lemma random_targets_differ_witness :
  exists out confs targets,
    random_targets (Labels [0; 2; 2; 1]%Z) 3 (fun _ => 0%nat) = Returns out /\
    length out = length [0; 2; 2; 1]%Z /\
    get_label_conf out = Returns (confs, targets) /\
    Forall2 (fun l t => Z.of_nat t <> l /\ (Z.of_nat t < 3)%Z)
            [0; 2; 2; 1]%Z targets.
Proof.
  apply random_targets_differ; [lia | apply valid_picks_first; lia].
Defined.

(** One class is drawn per class of labels, not per label: two entries
    with the same label get the same row. *)
Theorem random_targets_same_class labels k pick :
  (2 <= k)%Z -> valid_picks k pick ->
  exists out,
    random_targets (Labels labels) k pick = Returns out /\
    forall i j l,
      nth_error labels i = Some l -> nth_error labels j = Some l ->
      nth_error out i = nth_error out j.
Proof.
  intros Hk Hpick. eexists. split; [now apply random_targets_rows|].
  intros i j l Hi Hj. now rewrite !nth_error_map, Hi, Hj.
Qed.

Lemma random_targets_same_class_witness :
  exists out,
    random_targets (Labels [0; 2; 2; 1]%Z) 3 (fun _ => 0%nat) = Returns out /\
    forall i j l,
      nth_error [0; 2; 2; 1]%Z i = Some l ->
      nth_error [0; 2; 2; 1]%Z j = Some l ->
      nth_error out i = nth_error out j.
Proof.
  apply random_targets_same_class; [lia | apply valid_picks_first; lia].
Defined.

(** A label that is no class (negative, or [nb_classes] and above) is left
    with the initial entry of [result]: its row encodes class [0]. *)
Theorem random_targets_unknown_label labels k pick i l :
  (2 <= k)%Z -> valid_picks k pick ->
  nth_error labels i = Some l -> ~ in_classes k l ->
  exists out,
    random_targets (Labels labels) k pick = Returns out /\
    nth_error out i = Some (onehot (Z.to_nat k) 0).
Proof.
  intros Hk Hpick Hi Hout. eexists.
  split; [now apply random_targets_rows|].
  rewrite nth_error_map, Hi. simpl. do 2 f_equal.
  unfold target_of, target_of_or.
  destruct (in_dec Z.eq_dec l (py_range k)) as [Hin|_]; [|reflexivity].
  apply py_range_In in Hin. contradiction.
Qed.

Lemma random_targets_unknown_label_witness :
  exists out,
    random_targets (Labels [0; 7; 1]%Z) 3 (fun _ => 0%nat) = Returns out /\
    nth_error out 1 = Some (onehot (Z.to_nat 3) 0).
Proof.
  apply (random_targets_unknown_label [0; 7; 1]%Z 3 (fun _ => 0%nat) 1 7%Z).
  - lia.
  - apply valid_picks_first. lia.
  - reflexivity.
  - unfold in_classes. lia.
Defined.

(** With a single class there is no other class to choose: the call
    raises [ValueError], whatever the labels. *)
Theorem random_targets_single_class labels pick :
  random_targets (Labels labels) 1 pick = Raises PyValueError.
Proof. reflexivity. Qed.

(** Confidences are read through [np.argmax]: on the one-hot matrix of
    labels, [random_targets] does what it does on the labels. *)
Theorem random_targets_from_confidences labels k pick :
  (0 < k)%Z -> Forall (in_classes k) labels ->
  exists y,
    to_categorical labels (Some k) = Returns y /\
    random_targets (Confidences y) k pick
      = random_targets (Labels labels) k pick.
Proof.
  intros Hk Hl. eexists. split; [now apply to_categorical_in_range|].
  unfold random_targets. cbn [class_labels].
  rewrite (all_returns_map_map argmax _ Z.to_nat).
  - replace (map Z.of_nat (map Z.to_nat labels)) with labels; [reflexivity|].
    rewrite map_map. symmetry. apply map_id_on.
    eapply Forall_impl; [|exact Hl]. simpl. intros l [H0 _]. lia.
  - eapply Forall_impl; [|exact Hl]. simpl. intros l Hin.
    now apply onehot_argmax, in_classes_to_nat.
Qed.

Lemma random_targets_from_confidences_witness :
  exists y,
    to_categorical [0; 2; 1]%Z (Some 3%Z) = Returns y /\
    random_targets (Confidences y) 3 (fun _ => 0%nat)
      = random_targets (Labels [0; 2; 1]%Z) 3 (fun _ => 0%nat).
Proof.
  apply random_targets_from_confidences; [lia | in_classes_list].
Defined.

(** A matrix with one column (labels of shape [(n, 1)]) has two
    dimensions, so it is read through [np.argmax]: every row yields [0],
    and the call does what it does on [n] labels [0]. *)
Theorem random_targets_column_of_labels y k pick :
  Forall (fun row => length row = 1%nat) y ->
  random_targets (Confidences y) k pick
    = random_targets (Labels (repeat 0%Z (length y))) k pick.
Proof.
  intros Hy. unfold random_targets. cbn [class_labels].
  rewrite (all_returns_map argmax (fun _ => 0%nat)).
  - now rewrite map_map, map_const.
  - eapply Forall_impl; [|exact Hy]. simpl.
    intros [|x [|x' row]] H; simpl in H; try discriminate. reflexivity.
Qed.

Lemma random_targets_column_of_labels_witness :
  random_targets (Confidences [[2]; [0]; [1]]) 3 (fun _ => 0%nat)
    = random_targets (Labels (repeat 0%Z (length [[2]; [0]; [1]]))) 3
                     (fun _ => 0%nat).
Proof.
  apply random_targets_column_of_labels. repeat constructor.
Defined.

(** ** [preprocess] *)

(** Data within [[0, max_value]] is scaled into [[0, 1]], entry by entry,
    and the labels are encoded by [to_categorical]. *)
Theorem preprocess_scales x y k max_value :
  0 < max_value ->
  Forall (Forall (fun v => 0 <= v <= max_value)) x ->
  (0 < k)%Z -> Forall (in_classes k) y ->
  exists x' y',
    preprocess x y k max_value = Returns (finite_batch x', y') /\
    to_categorical y (Some k) = Returns y' /\
    x' = map (map (fun v => v / max_value)) x /\
    Forall (Forall (fun v => 0 <= v <= 1)) x'.
Proof.
  intros Hmax Hx Hk Hy.
  exists (map (map (fun v => v / max_value)) x). eexists.
  unfold preprocess. rewrite (to_categorical_in_range y k Hk Hy).
  split; [|split; [reflexivity|split; [reflexivity|]]].
  - do 2 f_equal. unfold finite_batch. rewrite map_map.
    apply map_ext. intros row. rewrite map_map.
    apply map_ext. intros v. simpl.
    destruct (Req_dec_T max_value 0); [lra|reflexivity].
  - apply Forall_map. eapply Forall_impl; [|exact Hx]. simpl.
    intros row Hrow. apply Forall_map.
    eapply Forall_impl; [|exact Hrow]. simpl. intros v [H0 H1].
    split.
    + apply Rmult_le_pos; [assumption|]. left. now apply Rinv_0_lt_compat.
    + apply Rmult_le_reg_r with max_value; [assumption|].
      unfold Rdiv. rewrite Rmult_assoc, Rinv_l by lra. lra.
Qed.

Lemma preprocess_scales_witness :
  exists x' y',
    preprocess [[0; 255]; [51; 102]] [1; 9]%Z 10 255
      = Returns (finite_batch x', y') /\
    to_categorical [1; 9]%Z (Some 10%Z) = Returns y' /\
    x' = map (map (fun v => v / 255)) [[0; 255]; [51; 102]] /\
    Forall (Forall (fun v => 0 <= v <= 1)) x'.
Proof.
  apply preprocess_scales.
  - lra.
  - repeat constructor; lra.
  - lia.
  - in_classes_list.
Defined.

(** * More on [projection] and [random_sphere] *)

Lemma Forall2_map_right {A B : Type} (P : A -> B -> Prop) (f : A -> B) l :
  (forall a, P a (f a)) -> Forall2 P l (map f l).
Proof. intros H. induction l; simpl; constructor; auto. Qed.

Lemma clip_entry_sign x eps :
  0 < eps -> 0 <= x * (Np.sign x * Rmin (Rabs x) eps).
Proof.
  intros Heps. pose proof (Rabs_pos x) as Hx. unfold Np.sign.
  sign_cases x.
  - assert (0 <= Rmin (Rabs x) eps) by minmax. nra.
  - assert (0 <= Rmin (Rabs x) eps) by minmax. nra.
Qed.

Lemma clip_entry_le x eps :
  0 < eps -> Rabs (Np.sign x * Rmin (Rabs x) eps) <= Rabs x.
Proof.
  intros Heps. pose proof (Rabs_pos x) as Hx.
  rewrite Rabs_mult. unfold Np.sign. sign_cases x.
  - rewrite Rabs_minus_one, Rmult_1_l, Rabs_pos_eq; minmax.
  - rewrite Rabs_R0. lra.
  - rewrite Rabs_R1, Rmult_1_l, Rabs_pos_eq; minmax.
Qed.

(** [projection] never enlarges an entry and never turns its sign: every
    entry of the result is at most as large in magnitude as the entry it
    comes from, and their product is not negative. *)
Theorem projection_shrinks v eps p :
  0 < eps -> supported p ->
  exists out,
    projection v eps p = Ok (finite_batch out) /\
    Forall2 (Forall2 (fun x y => Rabs y <= Rabs x /\ 0 <= x * y)) v out.
Proof.
  intros Heps Hp. exists (map (project_row eps p) v).
  split; [now apply projection_rows|].
  apply Forall2_map_right. intros row.
  assert (Hscaled : forall c, 0 < c <= 1 ->
            Forall2 (fun x y => Rabs y <= Rabs x /\ 0 <= x * y)
                    row (map (fun x => x * c) row)).
  { intros c Hc. apply Forall2_map_right. intros x.
    rewrite Rabs_mult, (Rabs_pos_eq c) by lra.
    pose proof (Rabs_pos x). split; nra. }
  destruct Hp as [-> | [-> | ->]]; simpl.
  - apply Hscaled, factor_range; [assumption|apply norm_l1_nonneg].
  - apply Hscaled, factor_range; [assumption|apply norm_l2_nonneg].
  - apply Forall2_map_right. intros x.
    split; [now apply clip_entry_le | now apply clip_entry_sign].
Qed.

Lemma projection_shrinks_witness :
  exists out,
    projection [[3; -4]; [0; 1]] 2 (PyInt 1) = Ok (finite_batch out) /\
    Forall2 (Forall2 (fun x y => Rabs y <= Rabs x /\ 0 <= x * y))
            [[3; -4]; [0; 1]] out.
Proof.
  apply projection_shrinks; [lra | left; reflexivity].
Defined.

Lemma scale_zero_radius nm :
  scale 0 nm = if Req_dec_T nm 0 then NaN else Fin 0.
Proof.
  unfold scale, ratio. rewrite clipped_norm_id. simpl.
  destruct (Req_dec_T nm 0) as [Hz | Hnz].
  - unfold Float.signed_inf. sign_cases 0. reflexivity.
  - unfold Np.clip. simpl. f_equal.
    replace (0 / nm) with 0 by (field; assumption). minmax.
Qed.

(** The radius [eps = 0] with [p = 1] or [p = 2]: a row that is not all
    zero is returned as zeros, and an all-zero row, whose quotient is
    [0 / 0], is returned as NaN in every entry. *)
Theorem projection_zero_radius v p i row :
  p = PyInt 1 \/ p = PyInt 2 ->
  nth_error v i = Some row ->
  exists out,
    projection v 0 p = Ok out /\
    nth_error out i
      = Some (map (fun _ => if Req_dec_T (lp_norm p row) 0
                            then NaN else Fin 0) row).
Proof.
  intros Hp Hrow.
  assert (Hrows : forall nrm,
            nth_error (scale_rows v (map (scale 0) (map nrm v))) i
            = Some (map (fun _ => if Req_dec_T (nrm row) 0
                                  then NaN else Fin 0) row)).
  { intros nrm. unfold scale_rows.
    rewrite map_map, map2_map_r, nth_error_map, Hrow. simpl. f_equal.
    rewrite scale_zero_radius. apply map_ext. intros x.
    destruct (Req_dec_T (nrm row) 0); simpl; [reflexivity|].
    f_equal. lra. }
  destruct Hp as [-> | ->]; simpl; eexists; (split; [reflexivity|]);
    apply Hrows.
Qed.

Lemma projection_zero_radius_witness :
  exists out,
    projection [[0; 0]; [3; 4]] 0 (PyInt 2) = Ok out /\
    nth_error out 0
      = Some (map (fun _ => if Req_dec_T (lp_norm (PyInt 2) [0; 0]) 0
                            then NaN else Fin 0) [0; 0]).
Proof.
  apply (projection_zero_radius [[0; 0]; [3; 4]] (PyInt 2) 0 [0; 0]).
  - right; reflexivity.
  - reflexivity.
Defined.




(** For [n >= 1] and a supported norm, [random_sphere] returns [m] rows of
    [n] entries, whatever the draws. *)
Theorem random_sphere_shape gammainc m n r w p :
  (1 <= n)%nat -> supported p ->
  exists out,
    random_sphere gammainc m n r w p = Ok out /\
    length out = m /\
    Forall (fun row => length row = n) out.
Proof.
  intros Hn Hp. destruct n as [|n']; [lia|].
  destruct Hp as [-> | [-> | ->]];
    cbn [random_sphere sphere_l1 sphere_l2]; unfold sphere_linf, Np.matrix;
    eexists; (split; [reflexivity|]); (split; [apply vector_length|]);
    apply vector_Forall; intros i _.
  - rewrite length_map. apply l1_row_length. lia.
  - rewrite length_map. apply gauss_row_length.
  - apply vector_length.
Qed.

Lemma random_sphere_shape_witness :
  exists out,
    random_sphere gammainc_one 3 2 1 zero_draws (PyInt 2) = Ok out /\
    length out = 3%nat /\
    Forall (fun row => length row = 2%nat) out.
Proof.
  apply random_sphere_shape; [lia | right; left; reflexivity].
Defined.

(** The dimension [n = 0]: the L2 branch raises at [1/n], the L1 branch
    raises at the first draw of [n - 1] cut points (with no row to draw
    for, it returns the empty batch), and the L-infinity branch returns
    [m] rows without entries. *)
Theorem random_sphere_dimension_zero gammainc m r w :
  random_sphere gammainc m 0 r w (PyInt 2) = Raise ZeroDivisionError /\
  random_sphere gammainc (S m) 0 r w (PyInt 1) = Raise ValueError /\
  random_sphere gammainc 0 0 r w (PyInt 1) = Ok [] /\
  random_sphere gammainc m 0 r w PyInf = Ok (repeat [] m).
Proof.
  repeat split; try reflexivity.
  simpl. f_equal. unfold sphere_linf, Np.matrix, Np.vector. simpl.
  rewrite <- (length_seq m 0) at 2. apply map_const.
Qed.

(** * [load_dataset] *)

Module LoaderFacts.

Import Ascii String Loader.
Local Open Scope string_scope.

Lemma prefix_append sub post : prefix sub (sub ++ post) = true.
Proof.
  induction sub as [|a sub IH]; simpl.
  - now destruct post.
  - destruct (ascii_dec a a); [assumption|contradiction].
Qed.

Lemma contains_append sub pre post : contains sub (pre ++ sub ++ post) = true.
Proof.
  induction pre as [|c pre IH]; cbn [append].
  - pose proof (prefix_append sub post) as Hp.
    destruct (sub ++ post); cbn [contains]; now rewrite Hp.
  - cbn [contains]. rewrite IH. now destruct (prefix sub _).
Qed.

Lemma prefix_length sub s :
  prefix sub s = true -> (String.length sub <= String.length s)%nat.
Proof.
  revert s. induction sub as [|a sub IH]; intros s H; simpl; [lia|].
  destruct s as [|b s]; simpl in *; [discriminate|].
  destruct (ascii_dec a b); [|discriminate].
  apply IH in H. lia.
Qed.

Lemma contains_shorter sub s :
  (String.length s < String.length sub)%nat -> contains sub s = false.
Proof.
  revert sub. induction s as [|c s IH]; intros sub Hlen.
  - destruct sub; [simpl in Hlen; lia|reflexivity].
  - cbn [contains].
    assert (Hpre : prefix sub (String c s) = false).
    { destruct (prefix sub (String c s)) eqn:E; [|reflexivity].
      apply prefix_length in E. lia. }
    rewrite Hpre. apply IH. simpl in Hlen. lia.
Qed.

(** The name is matched by substring, and [mnist] is looked for first: a
    name in which [mnist] occurs loads MNIST, whatever surrounds it, also
    when another dataset's name occurs in it; a name shorter than every
    dataset name raises [NotImplementedError]. *)
Theorem load_dataset_by_substring (dataset : Type)
        (mnist cifar10 imagenet stl : result dataset) pre post short :
  (String.length short < 5)%nat ->
  load_dataset dataset mnist cifar10 imagenet stl (pre ++ "mnist" ++ post)
    = mnist /\
  load_dataset dataset mnist cifar10 imagenet stl short
    = Raise NotImplementedError.
Proof.
  intros Hshort. unfold load_dataset. split.
  - now rewrite contains_append.
  - rewrite !contains_shorter; simpl; try lia. reflexivity.
Qed.

Lemma load_dataset_by_substring_witness :
  load_dataset nat (Ok 0%nat) (Ok 1%nat) (Ok 2%nat) (Ok 3%nat)
               ("data/cifar10_" ++ "mnist" ++ ".npz")
    = Ok 0%nat /\
  load_dataset nat (Ok 0%nat) (Ok 1%nat) (Ok 2%nat) (Ok 3%nat) "stl"
    = Raise NotImplementedError.
Proof.
  apply load_dataset_by_substring. simpl. lia.
Defined.

End LoaderFacts.
